(** * seller-apis: stock and price synchronisation with two marketplaces

    A shallow embedding of [seller.py] (marketplace A) and [market.py]
    (marketplace B), and the properties of their reconcilers, of the price
    normaliser, of the chunking generator and of the two drivers.

    Conventions.
    - A Python [str] is a [string], read as the UTF-8 encoding of the text.
      Every operation of the two files on text compares against ASCII
      characters only (["."], the digits, the sentinels), so the bytes of a
      character outside ASCII are always "other" characters, as the character
      itself is in Python.
    - A Python [int] is a [Z].
    - A cell of the remnants feed is a [pyval]: the spreadsheet reader hands
      out strings, whole numbers, other numbers or nothing.
    - An exception is a value of [exn]; a computation that can raise returns
      an [outcome]. *)

From Stdlib Require Import Ascii String.
From stdpp Require Import gmap strings list pretty.

Open Scope string_scope.
Open Scope list_scope.
Open Scope Z_scope.

(** ** Python values and exceptions *)

Inductive exn :=
  | ValueError
  | TypeError
  | AttributeError
  | IndexError
  | EnvError
  | ReadTimeout
  | ConnectionError
  | HTTPError.

Global Instance exn_eq_dec : EqDecision exn.
Proof. solve_decision. Defined.

(** [Diverge] is a loop that never ends; no [except] clause catches it. *)
Inductive outcome (A : Type) :=
  | Ret (a : A)
  | Raise (e : exn)
  | Diverge.
Arguments Ret {A} a.
Arguments Raise {A} e.
Arguments Diverge {A}.

Definition obind {A B} (o : outcome A) (f : A → outcome B) : outcome B :=
  match o with
  | Ret a => f a
  | Raise e => Raise e
  | Diverge => Diverge
  end.

Global Instance outcome_eq_dec {A} `{EqDecision A} : EqDecision (outcome A).
Proof. solve_decision. Defined.

(** A cell of the feed.  The reader makes numbers from the doubles of the
    sheet: a whole one becomes an [int] (so it has a few hundred digits at
    most), any other stays a [float].  The two files look at a cell through
    [str] and [int] only, so a float is given by what those two make of it:
    its text and its whole part ([int] raises on a float that is no
    number). *)
Inductive pyval :=
  | PyNone
  | PyInt (z : Z)
  | PyStr (s : string)
  | PyFloat (text : string) (whole : outcome Z).

Global Instance pyval_eq_dec : EqDecision pyval.
Proof. solve_decision. Defined.

(** [str(v)], for a cell the reader makes ([str] refuses an integer of more
    than 4300 digits, which no cell of a sheet holds). *)
Definition py_str (v : pyval) : string :=
  match v with
  | PyNone => "None"
  | PyInt z => pretty z
  | PyStr s => s
  | PyFloat text _ => text
  end.

(** ** Characters *)

Definition is_digit (c : ascii) : bool :=
  let n := nat_of_ascii c in (48 <=? n)%nat && (n <=? 57)%nat.

Definition digit_value (c : ascii) : Z := Z.of_nat (nat_of_ascii c - 48).

(** The white space [int] skips around a literal: space, and \t \n \v \f \r. *)
Definition is_space (c : ascii) : bool :=
  let n := nat_of_ascii c in (n =? 32)%nat || ((9 <=? n)%nat && (n <=? 13)%nat).

(** ** [int(v)] *)

Fixpoint lstrip (s : string) : string :=
  match s with
  | String c r => if is_space c then lstrip r else s
  | EmptyString => EmptyString
  end.

Fixpoint rstrip (s : string) : string :=
  match s with
  | String c r =>
      match rstrip r with
      | EmptyString => if is_space c then EmptyString else String c EmptyString
      | r' => String c r'
      end
  | EmptyString => EmptyString
  end.

(** The digits of a literal, most significant first.  [acc] is the value read
    so far, [seen] the number of digits read so far, and [after_digit] tells
    whether the previous character was a digit: an underscore is accepted
    between two digits only, and the literal ends on a digit. *)
Fixpoint int_digits (acc : Z) (seen : nat) (after_digit : bool) (s : string)
  : option (Z * nat) :=
  match s with
  | EmptyString => if after_digit then Some (acc, seen) else None
  | String c r =>
      if is_digit c then int_digits (acc * 10 + digit_value c) (S seen) true r
      else if Ascii.eqb c "_" && after_digit then int_digits acc seen false r
      else None
  end.

(** The default of [sys.int_max_str_digits]: a longer literal is refused
    (interpreters before that setting existed accept it). *)
Definition int_max_str_digits : nat := 4300.

Definition int_unsigned (s : string) : outcome Z :=
  match int_digits 0 0 false s with
  | Some (z, seen) =>
      if (seen <=? int_max_str_digits)%nat then Ret z else Raise ValueError
  | None => Raise ValueError
  end.

(** [int] of a string made of ASCII characters: white space around, a
    sign, decimal digits. *)
Definition py_int_ascii (s : string) : outcome Z :=
  match rstrip (lstrip s) with
  | String c r =>
      if Ascii.eqb c "+" then int_unsigned r
      else if Ascii.eqb c "-" then obind (int_unsigned r) (λ z, Ret (- z))
      else int_unsigned (String c r)
  | EmptyString => int_unsigned EmptyString
  end.

(** Before it reads a string, [int] replaces every blank outside ASCII by a
    space and every decimal digit outside ASCII by the ASCII digit of the
    same value; at the first other character outside ASCII it puts ["?"]
    and drops the rest.  The characters below are those of Unicode 14.0. *)

(** The blanks outside ASCII. *)
Definition unicode_spaces : list N :=
  [0x85; 0xa0; 0x1680; 0x2000; 0x2001; 0x2002; 0x2003; 0x2004; 0x2005; 0x2006;
   0x2007; 0x2008; 0x2009; 0x200a; 0x2028; 0x2029; 0x202f; 0x205f; 0x3000]%N.

(** The digit zero of every script outside ASCII; the digits one to nine of
    the script follow it. *)
Definition unicode_zeros : list N :=
  [0x660; 0x6f0; 0x7c0; 0x966; 0x9e6; 0xa66; 0xae6; 0xb66; 0xbe6; 0xc66;
   0xce6; 0xd66; 0xde6; 0xe50; 0xed0; 0xf20; 0x1040; 0x1090; 0x17e0; 0x1810;
   0x1946; 0x19d0; 0x1a80; 0x1a90; 0x1b50; 0x1bb0; 0x1c40; 0x1c50; 0xa620;
   0xa8d0; 0xa900; 0xa9d0; 0xa9f0; 0xaa50; 0xabf0; 0xff10; 0x104a0; 0x10d30;
   0x11066; 0x110f0; 0x11136; 0x111d0; 0x112f0; 0x11450; 0x114d0; 0x11650;
   0x116c0; 0x11730; 0x118e0; 0x11950; 0x11c50; 0x11d50; 0x11da0; 0x16a60;
   0x16ac0; 0x16b50; 0x1d7ce; 0x1d7d8; 0x1d7e2; 0x1d7ec; 0x1d7f6; 0x1e140;
   0x1e2f0; 0x1e950; 0x1fbf0]%N.

(** The value of a decimal digit outside ASCII. *)
Definition unicode_decimal (cp : N) : option N :=
  (λ zero, cp - zero)%N
    <$> head (filter (λ zero, (zero ≤ cp)%N ∧ (cp < zero + 10)%N) unicode_zeros).

(** The ASCII character that stands for a character outside ASCII. *)
Definition ascii_of_code_point (cp : N) : option ascii :=
  if bool_decide (cp ∈ unicode_spaces) then Some " "%char
  else (λ d, ascii_of_N (48 + d)) <$> unicode_decimal cp.

(** The bits a continuation byte of UTF-8 carries. *)
Definition continuation (b : ascii) : option N :=
  let n := N_of_ascii b in
  if ((128 <=? n) && (n <? 192))%N then Some (n - 128)%N else None.

(** The replacement of one character outside ASCII, given its code point
    (nothing, when the bytes are no UTF-8) and the replaced rest. *)
Definition replaced (cp : option N) (rest : string) : string :=
  match cp ≫= ascii_of_code_point with
  | Some c => String c rest
  | None => "?"
  end.

Fixpoint transform_decimal_and_space_to_ascii (s : string) : string :=
  match s with
  | EmptyString => EmptyString
  | String b1 r1 =>
      let n1 := N_of_ascii b1 in
      if (n1 <? 127)%N then String b1 (transform_decimal_and_space_to_ascii r1)
      else if (n1 <? 192)%N then "?"
      else
        match r1 with
        | String b2 r2 =>
            if (n1 <? 224)%N then
              replaced (c2 ← continuation b2; Some ((n1 - 192) * 64 + c2)%N)
                (transform_decimal_and_space_to_ascii r2)
            else
              match r2 with
              | String b3 r3 =>
                  if (n1 <? 240)%N then
                    replaced
                      (c2 ← continuation b2; c3 ← continuation b3;
                       Some ((n1 - 224) * 4096 + c2 * 64 + c3)%N)
                      (transform_decimal_and_space_to_ascii r3)
                  else
                    match r3 with
                    | String b4 r4 =>
                        replaced
                          (c2 ← continuation b2; c3 ← continuation b3;
                           c4 ← continuation b4;
                           Some ((n1 - 240) * 262144 + c2 * 4096 + c3 * 64 + c4)%N)
                          (transform_decimal_and_space_to_ascii r4)
                    | EmptyString => "?"
                    end
              | EmptyString => "?"
              end
        | EmptyString => "?"
        end
  end.

(** [int(s)] for a string. *)
Definition py_int_str (s : string) : outcome Z :=
  py_int_ascii (transform_decimal_and_space_to_ascii s).

Definition py_int (v : pyval) : outcome Z :=
  match v with
  | PyNone => Raise TypeError
  | PyInt z => Ret z
  | PyStr s => py_int_str s
  | PyFloat _ whole => whole
  end.

(** ** [str.split], indexing and [re.sub] as [price_conversion] uses them *)

(** [s.split(sep)] for a separator of one character. *)
Fixpoint py_split (sep : ascii) (s : string) : list string :=
  match s with
  | EmptyString => [EmptyString]
  | String c r =>
      if Ascii.eqb c sep then EmptyString :: py_split sep r
      else match py_split sep r with
           | piece :: pieces => String c piece :: pieces
           | [] => [String c EmptyString]
           end
  end.

(** [l[i]] for [0 <= i]. *)
Definition py_index {A} (l : list A) (i : nat) : outcome A :=
  match l !! i with
  | Some x => Ret x
  | None => Raise IndexError
  end.

(** [re.sub("[^0-9]", "", s)]: every character outside [0-9] is deleted. *)
Fixpoint re_sub_non_digits (s : string) : string :=
  match s with
  | EmptyString => EmptyString
  | String c r =>
      if is_digit c then String c (re_sub_non_digits r)
      else re_sub_non_digits r
  end.

(** seller.py, [price_conversion]: a price that is not a string has no
    [split]. *)
Definition price_conversion (price : pyval) : outcome string :=
  match price with
  | PyStr p =>
      obind (py_index (py_split "." p) 0) (λ head, Ret (re_sub_non_digits head))
  | _ => Raise AttributeError
  end.

(** ** [range], slices and [divide] *)

(** The values [range(i, stop, step)] produces for [0 < step]; [fuel] bounds
    their number. *)
Fixpoint range_up (fuel : nat) (i stop step : Z) : list Z :=
  match fuel with
  | O => []
  | S fuel' => if i <? stop then i :: range_up fuel' (i + step) stop step else []
  end.

Fixpoint range_down (fuel : nat) (i stop step : Z) : list Z :=
  match fuel with
  | O => []
  | S fuel' => if stop <? i then i :: range_down fuel' (i + step) stop step else []
  end.

(** [list(range(start, stop, step))].  There are at most [|stop - start|]
    values, so that much fuel never runs out. *)
Definition py_range (start stop step : Z) : outcome (list Z) :=
  if step =? 0 then Raise ValueError
  else if 0 <? step then Ret (range_up (Z.to_nat (stop - start)) start stop step)
  else Ret (range_down (Z.to_nat (start - stop)) start stop step).

(** A slice bound, as Python clamps it into [0, len]. *)
Definition slice_bound (len i : Z) : Z :=
  if i <? 0 then Z.max 0 (i + len) else Z.min i len.

(** [lst[lo:hi]] *)
Definition py_slice {A} (lst : list A) (lo hi : Z) : list A :=
  let len := Z.of_nat (length lst) in
  let a := slice_bound len lo in
  let b := slice_bound len hi in
  take (Z.to_nat (b - a)) (drop (Z.to_nat a) lst).

(** seller.py, [divide], as every caller runs it: [list(divide(lst, n))].
    The generator raises what [range] raises, at its first step. *)
Definition divide {A} (lst : list A) (n : Z) : outcome (list (list A)) :=
  obind (py_range 0 (Z.of_nat (length lst)) n)
        (λ starts, Ret (map (λ i, py_slice lst i (i + n)) starts)).


(** ** Rows of the feed and request bodies *)

(** One row of [ostatki.xls], the dict [to_dict(orient="records")] makes of
    it; [d.get(k)] is [None] for a missing key. *)
Definition py_get (d : gmap string pyval) (k : string) : pyval :=
  default PyNone (d !! k).

(** [{"offer_id": ..., "stock": ...}] *)
Module SellerStock.
Record t := mk { offer_id : string; stock : Z }.
End SellerStock.

(** [{"auto_action_enabled": ..., "currency_code": ..., "offer_id": ...,
      "old_price": ..., "price": ...}] *)
Module SellerPrice.
Record t := mk {
  auto_action_enabled : string;
  currency_code : string;
  offer_id : string;
  old_price : string;
  price : string
}.
End SellerPrice.

(** [{"count": ..., "type": ..., "updatedAt": ...}] *)
Module MarketItem.
Record t := mk { count : Z; type : string; updatedAt : string }.
End MarketItem.

(** [{"sku": ..., "warehouseId": ..., "items": [...]}] *)
Module MarketStock.
Record t := mk { sku : string; warehouseId : string; items : list MarketItem.t }.
End MarketStock.

(** [{"id": ..., "price": {"value": ..., "currencyId": ...}}] *)
Module MarketPrice.
Record amount := mk_amount { value : Z; currencyId : string }.
Record t := mk { id : string; price : amount }.
End MarketPrice.

(** What the listing endpoints answer: the ["offer_id"] (the ["shopSku"]) of
    every item of the page, and the paging fields. *)
Record seller_page := {
  sp_items : list string;
  sp_total : Z;
  sp_last_id : string
}.

Record market_page := {
  mp_offerMappingEntries : list string;
  mp_nextPageToken : option string
}.

(** ** The world outside, and the state of a run *)

(** Everything a run does to the outside, in order. *)
Inductive event :=
  | EvSellerGetProductList (last_id client_id seller_token : string)
  | EvSellerUpdateStocks (stocks : list SellerStock.t) (client_id seller_token : string)
  | EvSellerUpdatePrice (prices : list SellerPrice.t) (client_id seller_token : string)
  | EvDownloadStock
  | EvMarketGetProductList (page campaign_id access_token : string)
  | EvMarketUpdateStocks (stocks : list MarketStock.t) (campaign_id access_token : string)
  | EvMarketUpdatePrice (prices : list MarketPrice.t) (campaign_id access_token : string)
  | EvUtcNow
  | EvPrint (error : option exn) (text : string).

(** The outside answers each request knowing all that happened before; an
    answer is a value, an exception of [requests], or never comes. *)
Record world := {
  environ : gmap string string;
  seller_listing : list event → event → outcome seller_page;
  market_listing : list event → event → outcome market_page;
  feed : list event → outcome (list (gmap string pyval));
  acknowledge : list event → event → outcome ();
  utcnow : list event → string
}.

(** A list object lives at a location of the heap: two names of one list
    are one location. *)
Definition loc := positive.

Record state := {
  heap : gmap loc (list string);
  log : list event
}.

Definition M (A : Type) : Type := state → outcome A * state.

Global Instance M_ret : MRet M := λ A a st, (Ret a, st).

Global Instance M_bind : MBind M := λ A B f m st,
  match m st with
  | (Ret a, st') => f a st'
  | (Raise e, st') => (Raise e, st')
  | (Diverge, st') => (Diverge, st')
  end.

Definition raise {A} (e : exn) : M A := λ st, (Raise e, st).
Definition diverge {A} : M A := λ st, (Diverge, st).

Definition lift {A} (o : outcome A) : M A := λ st, (o, st).

(** [try: m except Exception as e: handler e] *)
Definition try_except {A} (m : M A) (handler : exn → M A) : M A :=
  λ st, match m st with
        | (Raise e, st') => handler e st'
        | r => r
        end.

(** A new list object. *)
Definition alloc (l : list string) : M loc :=
  λ st, let r := fresh (dom (heap st)) in
        (Ret r, {| heap := <[r := l]> (heap st); log := log st |}).

Definition read (r : loc) : M (list string) :=
  λ st, (Ret (heap st !!! r), st).

Definition write (r : loc) (l : list string) : M () :=
  λ st, (Ret (), {| heap := <[r := l]> (heap st); log := log st |}).

(** One request: it enters the log, then the outside answers. *)
Definition request {A} (answer : list event → event → outcome A) (e : event) : M A :=
  λ st, (answer (log st) e, {| heap := heap st; log := log st ++ [e] |}).

Definition print (error : option exn) (text : string) : M () :=
  request (λ _ _, Ret ()) (EvPrint error text).

(** [for x in l: body x] *)
Fixpoint for_each {A} (l : list A) (body : A → M ()) : M () :=
  match l with
  | [] => mret ()
  | x :: rest => body x;; for_each rest body
  end.

(** [x in l] *)
Definition py_in (x : string) (l : list string) : bool := bool_decide (x ∈ l).

(** [l.remove(x)]: the first [x] goes; [ValueError] when there is none. *)
Fixpoint remove_first (x : string) (l : list string) : option (list string) :=
  match l with
  | [] => None
  | y :: rest =>
      if decide (y = x) then Some rest
      else cons y <$> remove_first x rest
  end.

Definition list_remove (r : loc) (x : string) : M () :=
  l ← read r;
  match remove_first x l with
  | Some l' => write r l'
  | None => raise ValueError
  end.

(** Calling an [async def] function runs none of its body: the call makes a
    coroutine object, and the body runs when the object is awaited. *)
Inductive coroutine (A : Type) := Coroutine (body : M A).
Arguments Coroutine {A} body.

Definition async_def {A} (body : M A) : M (coroutine A) := mret (Coroutine body).

Definition await {A} (c : coroutine A) : M A :=
  match c with Coroutine body => body end.

(** [env.str(name)] *)
Definition env_str (w : world) (name : string) : M string :=
  match environ w !! name with
  | Some v => mret v
  | None => raise EnvError
  end.

(** The count-bucketing both [create_stocks] apply to the cell
    ["Количество"] of a row. *)
Definition stock_of (watch : gmap string pyval) : outcome Z :=
  let count := py_str (py_get watch "Количество") in
  if decide (count = ">10") then Ret 100
  else if decide (count = "1") then Ret 0
  else py_int (py_get watch "Количество").

(** ** seller.py *)

Module seller.
Section with_world.
Variable w : world.

Definition get_product_list (last_id client_id seller_token : string)
  : M seller_page :=
  request (seller_listing w) (EvSellerGetProductList last_id client_id seller_token).

(** The [while True] of [get_offer_ids]; [fuel] bounds the pages asked for. *)
Fixpoint get_offer_ids_loop (fuel : nat) (client_id seller_token last_id : string)
    (product_list : list string) : M (list string) :=
  match fuel with
  | O => diverge
  | S fuel' =>
      some_prod ← get_product_list last_id client_id seller_token;
      let product_list := product_list ++ sp_items some_prod in
      if sp_total some_prod =? Z.of_nat (length product_list)
      then mret product_list
      else get_offer_ids_loop fuel' client_id seller_token
             (sp_last_id some_prod) product_list
  end.

Definition get_offer_ids (fuel : nat) (client_id seller_token : string) : M loc :=
  product_list ← get_offer_ids_loop fuel client_id seller_token "" [];
  alloc product_list.

Definition update_price (prices : list SellerPrice.t)
    (client_id seller_token : string) : M () :=
  request (acknowledge w) (EvSellerUpdatePrice prices client_id seller_token).

Definition update_stocks (stocks : list SellerStock.t)
    (client_id seller_token : string) : M () :=
  request (acknowledge w) (EvSellerUpdateStocks stocks client_id seller_token).

Definition download_stock : M (list (gmap string pyval)) :=
  request (λ history _, feed w history) EvDownloadStock.

(** The first loop of [create_stocks]; [stocks] is the list built so far. *)
Fixpoint create_stocks_loop (watch_remnants : list (gmap string pyval))
    (offer_ids : loc) (stocks : list SellerStock.t) : M (list SellerStock.t) :=
  match watch_remnants with
  | [] => mret stocks
  | watch :: rest =>
      ids ← read offer_ids;
      if py_in (py_str (py_get watch "Код")) ids then
        stock ← lift (stock_of watch);
        let stocks :=
          stocks ++ [SellerStock.mk (py_str (py_get watch "Код")) stock] in
        list_remove offer_ids (py_str (py_get watch "Код"));;
        create_stocks_loop rest offer_ids stocks
      else create_stocks_loop rest offer_ids stocks
  end.

Definition create_stocks (watch_remnants : list (gmap string pyval))
    (offer_ids : loc) : M (list SellerStock.t) :=
  stocks ← create_stocks_loop watch_remnants offer_ids [];
  ids ← read offer_ids;
  mret (stocks ++ map (λ offer_id, SellerStock.mk offer_id 0) ids).

Fixpoint create_prices_loop (watch_remnants : list (gmap string pyval))
    (offer_ids : loc) (prices : list SellerPrice.t) : M (list SellerPrice.t) :=
  match watch_remnants with
  | [] => mret prices
  | watch :: rest =>
      ids ← read offer_ids;
      if py_in (py_str (py_get watch "Код")) ids then
        converted ← lift (price_conversion (py_get watch "Цена"));
        let price :=
          SellerPrice.mk "UNKNOWN" "RUB" (py_str (py_get watch "Код")) "0"
            converted in
        create_prices_loop rest offer_ids (prices ++ [price])
      else create_prices_loop rest offer_ids prices
  end.

Definition create_prices (watch_remnants : list (gmap string pyval))
    (offer_ids : loc) : M (list SellerPrice.t) :=
  create_prices_loop watch_remnants offer_ids [].

Definition upload_prices (fuel : nat) (watch_remnants : list (gmap string pyval))
    (client_id seller_token : string) : M (coroutine (list SellerPrice.t)) :=
  async_def (
    offer_ids ← get_offer_ids fuel client_id seller_token;
    prices ← create_prices watch_remnants offer_ids;
    chunks ← lift (divide prices 1000);
    for_each chunks (λ some_price, update_price some_price client_id seller_token);;
    mret prices).

Definition upload_stocks (fuel : nat) (watch_remnants : list (gmap string pyval))
    (client_id seller_token : string)
  : M (coroutine (list SellerStock.t * list SellerStock.t)) :=
  async_def (
    offer_ids ← get_offer_ids fuel client_id seller_token;
    stocks ← create_stocks watch_remnants offer_ids;
    chunks ← lift (divide stocks 100);
    for_each chunks (λ some_stock, update_stocks some_stock client_id seller_token);;
    let not_empty :=
      filter (λ stock, SellerStock.stock stock ≠ 0) stocks in
    mret (not_empty, stocks)).

(** The body of the [try] of [main]. *)
Definition main_body (fuel : nat) (client_id seller_token : string) : M () :=
  offer_ids ← get_offer_ids fuel client_id seller_token;
  watch_remnants ← download_stock;
  stocks ← create_stocks watch_remnants offer_ids;
  chunks ← lift (divide stocks 100);
  for_each chunks (λ some_stock, update_stocks some_stock client_id seller_token);;
  prices ← create_prices watch_remnants offer_ids;
  chunks ← lift (divide prices 900);
  for_each chunks (λ some_price, update_price some_price client_id seller_token).

Definition main_except (error : exn) : M () :=
  match error with
  | ReadTimeout => print None "Превышено время ожидания..."
  | ConnectionError => print (Some error) "Ошибка соединения"
  | _ => print (Some error) "ERROR_2"
  end.

Definition main (fuel : nat) : M () :=
  seller_token ← env_str w "SELLER_TOKEN";
  client_id ← env_str w "CLIENT_ID";
  try_except (main_body fuel client_id seller_token) main_except.

End with_world.
End seller.

(** ** market.py *)

Module market.
Section with_world.
Variable w : world.

Definition get_product_list (page campaign_id access_token : string)
  : M market_page :=
  request (market_listing w) (EvMarketGetProductList page campaign_id access_token).

Definition update_stocks (stocks : list MarketStock.t)
    (campaign_id access_token : string) : M () :=
  request (acknowledge w) (EvMarketUpdateStocks stocks campaign_id access_token).

Definition update_price (prices : list MarketPrice.t)
    (campaign_id access_token : string) : M () :=
  request (acknowledge w) (EvMarketUpdatePrice prices campaign_id access_token).

(** The [while True] of [get_offer_ids]: it ends on a page without a next
    token ([None] or the empty string). *)
Fixpoint get_offer_ids_loop (fuel : nat) (campaign_id market_token page : string)
    (product_list : list string) : M (list string) :=
  match fuel with
  | O => diverge
  | S fuel' =>
      some_prod ← get_product_list page campaign_id market_token;
      let product_list := product_list ++ mp_offerMappingEntries some_prod in
      match mp_nextPageToken some_prod with
      | None | Some EmptyString => mret product_list
      | Some page =>
          get_offer_ids_loop fuel' campaign_id market_token page product_list
      end
  end.

Definition get_offer_ids (fuel : nat) (campaign_id market_token : string) : M loc :=
  product_list ← get_offer_ids_loop fuel campaign_id market_token "" [];
  alloc product_list.

(** [datetime.datetime.utcnow()], already cut to the second and printed:
    [str(... .replace(microsecond=0).isoformat() + "Z")]. *)
Definition utcnow_isoformat_Z : M string :=
  request (λ history _, Ret (utcnow w history)) EvUtcNow.

Definition stock_record (sku warehouse_id : string) (stock : Z) (date : string)
  : MarketStock.t :=
  MarketStock.mk sku warehouse_id [MarketItem.mk stock "FIT" date].

Fixpoint create_stocks_loop (watch_remnants : list (gmap string pyval))
    (offer_ids : loc) (warehouse_id date : string) (stocks : list MarketStock.t)
  : M (list MarketStock.t) :=
  match watch_remnants with
  | [] => mret stocks
  | watch :: rest =>
      ids ← read offer_ids;
      if py_in (py_str (py_get watch "Код")) ids then
        stock ← lift (stock_of watch);
        let stocks :=
          stocks ++ [stock_record (py_str (py_get watch "Код")) warehouse_id
                       stock date] in
        list_remove offer_ids (py_str (py_get watch "Код"));;
        create_stocks_loop rest offer_ids warehouse_id date stocks
      else create_stocks_loop rest offer_ids warehouse_id date stocks
  end.

Definition create_stocks (watch_remnants : list (gmap string pyval))
    (offer_ids : loc) (warehouse_id : string) : M (list MarketStock.t) :=
  date ← utcnow_isoformat_Z;
  stocks ← create_stocks_loop watch_remnants offer_ids warehouse_id date [];
  ids ← read offer_ids;
  mret (stocks ++ map (λ offer_id, stock_record offer_id warehouse_id 0 date) ids).

Fixpoint create_prices_loop (watch_remnants : list (gmap string pyval))
    (offer_ids : loc) (prices : list MarketPrice.t) : M (list MarketPrice.t) :=
  match watch_remnants with
  | [] => mret prices
  | watch :: rest =>
      ids ← read offer_ids;
      if py_in (py_str (py_get watch "Код")) ids then
        converted ← lift (price_conversion (py_get watch "Цена"));
        value ← lift (py_int_str converted);
        let price :=
          MarketPrice.mk (py_str (py_get watch "Код"))
            (MarketPrice.mk_amount value "RUR") in
        create_prices_loop rest offer_ids (prices ++ [price])
      else create_prices_loop rest offer_ids prices
  end.

Definition create_prices (watch_remnants : list (gmap string pyval))
    (offer_ids : loc) : M (list MarketPrice.t) :=
  create_prices_loop watch_remnants offer_ids [].

Definition upload_prices (fuel : nat) (watch_remnants : list (gmap string pyval))
    (campaign_id market_token : string) : M (coroutine (list MarketPrice.t)) :=
  async_def (
    offer_ids ← get_offer_ids fuel campaign_id market_token;
    prices ← create_prices watch_remnants offer_ids;
    chunks ← lift (divide prices 500);
    for_each chunks (λ some_prices, update_price some_prices campaign_id market_token);;
    mret prices).

Definition upload_stocks (fuel : nat) (watch_remnants : list (gmap string pyval))
    (campaign_id market_token warehouse_id : string)
  : M (coroutine (list MarketStock.t * list MarketStock.t)) :=
  async_def (
    offer_ids ← get_offer_ids fuel campaign_id market_token;
    stocks ← create_stocks watch_remnants offer_ids warehouse_id;
    chunks ← lift (divide stocks 2000);
    for_each chunks (λ some_stock, update_stocks some_stock campaign_id market_token);;
    not_empty ←
      lift (foldr (λ stock acc,
              obind (py_index (MarketStock.items stock) 0) (λ item,
              obind acc (λ kept,
                Ret (if decide (MarketItem.count item ≠ 0)
                     then stock :: kept else kept))))
            (Ret []) stocks);
    mret (not_empty, stocks)).

(** One campaign of [main]: the statements between the comment that names
    the campaign and the next one. *)
Definition main_campaign (fuel : nat) (watch_remnants : list (gmap string pyval))
    (campaign_id market_token warehouse_id : string) : M () :=
  offer_ids ← get_offer_ids fuel campaign_id market_token;
  stocks ← create_stocks watch_remnants offer_ids warehouse_id;
  chunks ← lift (divide stocks 2000);
  for_each chunks (λ some_stock, update_stocks some_stock campaign_id market_token);;
  _ ← upload_prices fuel watch_remnants campaign_id market_token;
  mret ().

Definition main_except (error : exn) : M () :=
  match error with
  | ReadTimeout => print None "Превышено время ожидания..."
  | ConnectionError => print (Some error) "Ошибка соединения"
  | _ => print (Some error) "ERROR_2"
  end.

Definition main (fuel : nat) : M () :=
  market_token ← env_str w "MARKET_TOKEN";
  campaign_fbs_id ← env_str w "FBS_ID";
  campaign_dbs_id ← env_str w "DBS_ID";
  warehouse_fbs_id ← env_str w "WAREHOUSE_FBS_ID";
  warehouse_dbs_id ← env_str w "WAREHOUSE_DBS_ID";
  watch_remnants ← seller.download_stock w;
  try_except
    (main_campaign fuel watch_remnants campaign_fbs_id market_token warehouse_fbs_id;;
     main_campaign fuel watch_remnants campaign_dbs_id market_token warehouse_dbs_id)
    main_except.

End with_world.
End market.

(** ** The words of the specification, for comparison with the code *)

Fixpoint all_chars (P : ascii → bool) (s : string) : bool :=
  match s with
  | EmptyString => true
  | String c r => P c && all_chars P r
  end.

Definition digits_only (s : string) : Prop := all_chars is_digit s = true.
Definition no_digit (s : string) : Prop := all_chars (λ c, negb (is_digit c)) s = true.

(** "Everything from the first [.] onward" is discarded: what stays. *)
Fixpoint before_first_dot (s : string) : string :=
  match s with
  | EmptyString => EmptyString
  | String c r => if Ascii.eqb c "." then EmptyString else String c (before_first_dot r)
  end.

(** "Strip every character that is not an ASCII digit." *)
Definition keep_digits (s : string) : string :=
  string_of_list_ascii (filter (λ c, is_digit c = true) (list_ascii_of_string s)).

Definition normalize_spec (p : string) : string := keep_digits (before_first_dot p).

(** The integer a string of decimal digits writes, by the weight of each
    position. *)
Fixpoint decimal_value (s : string) : Z :=
  match s with
  | EmptyString => 0
  | String c r => digit_value c * 10 ^ Z.of_nat (String.length r) + decimal_value r
  end.

(** ** The reconcilers as functions of the rows and of the offer ids *)

Definition outcome_map {A B} (f : A → B) (o : outcome A) : outcome B :=
  obind o (λ a, Ret (f a)).

(** The code of a row, as both reconcilers read it. *)
Definition code_of (watch : gmap string pyval) : string :=
  py_str (py_get watch "Код").


(** The first loop of [create_stocks]: the pairs of offer id and count it
    appends, and the offer ids it leaves in the list. *)
Fixpoint match_rows (rem : list (gmap string pyval)) (ids : list string)
  : outcome (list (string * Z)) * list string :=
  match rem with
  | [] => (Ret [], ids)
  | watch :: rest =>
      if py_in (code_of watch) ids then
        match stock_of watch with
        | Ret stock =>
            match remove_first (code_of watch) ids with
            | Some ids' =>
                let (o, left) := match_rows rest ids' in
                (outcome_map (cons (code_of watch, stock)) o, left)
            | None => (Raise ValueError, ids)
            end
        | Raise e => (Raise e, ids)
        | Diverge => (Diverge, ids)
        end
      else match_rows rest ids
  end.

(** The loop of [create_prices] of seller.py. *)
Fixpoint seller_price_rows (rem : list (gmap string pyval)) (ids : list string)
  : outcome (list SellerPrice.t) :=
  match rem with
  | [] => Ret []
  | watch :: rest =>
      if py_in (code_of watch) ids then
        obind (price_conversion (py_get watch "Цена")) (λ converted,
          outcome_map
            (cons (SellerPrice.mk "UNKNOWN" "RUB" (code_of watch) "0" converted))
            (seller_price_rows rest ids))
      else seller_price_rows rest ids
  end.

(** The loop of [create_prices] of market.py. *)
Fixpoint market_price_rows (rem : list (gmap string pyval)) (ids : list string)
  : outcome (list MarketPrice.t) :=
  match rem with
  | [] => Ret []
  | watch :: rest =>
      if py_in (code_of watch) ids then
        obind (price_conversion (py_get watch "Цена")) (λ converted,
        obind (py_int_str converted) (λ value,
          outcome_map
            (cons (MarketPrice.mk (code_of watch) (MarketPrice.mk_amount value "RUR")))
            (market_price_rows rest ids)))
      else market_price_rows rest ids
  end.


(** The view of a stock record of market.py without its time stamp. *)
Definition without_date (r : MarketStock.t) : string * string * list (Z * string) :=
  (MarketStock.sku r, MarketStock.warehouseId r,
   map (λ item, (MarketItem.count item, MarketItem.type item)) (MarketStock.items r)).

(** The events that are a price update of either marketplace. *)
Definition is_price_update (e : event) : bool :=
  match e with
  | EvSellerUpdatePrice _ _ _ | EvMarketUpdatePrice _ _ _ => true
  | _ => false
  end.

Definition not_price_update (e : event) : Prop := is_price_update e = false.

Definition is_stock_update (e : event) : bool :=
  match e with
  | EvSellerUpdateStocks _ _ _ | EvMarketUpdateStocks _ _ _ => true
  | _ => false
  end.

(** ** States and logs *)

(** The state with the list at [r] replaced by [l]. *)
Definition set_list (st : state) (r : loc) (l : list string) : state :=
  {| heap := <[r := l]> (heap st); log := log st |}.

(** The state after one reading of the clock. *)
Definition clock_read (st : state) : state :=
  {| heap := heap st; log := log st ++ [EvUtcNow] |}.

(** [m] adds to the log only events that satisfy [P], however it ends. *)
Definition emits {A} (P : event → Prop) (m : M A) : Prop :=
  ∀ st, ∃ evs, log (m st).2 = log st ++ evs ∧ Forall P evs.

Ltac run :=
  unfold mbind, M_bind, mret, M_ret, read, write, lift, raise, list_remove; simpl.

(** ** Concrete inputs *)

Definition row (code quantity price : pyval) : gmap string pyval :=
  {[ "Код" := code; "Количество" := quantity; "Цена" := price ]}.

(** Two rows: [A] with 5 pieces, [B] with more than ten. *)
Definition remnants_AB : list (gmap string pyval) :=
  [row (PyStr "A") (PyInt 5) (PyStr "1000.00 руб.");
   row (PyStr "B") (PyStr ">10") (PyStr "500.00 руб.")].

(** A state whose only list object, at location 1, holds [ids]. *)
Definition state_with (ids : list string) : state :=
  {| heap := {[ 1%positive := ids ]}; log := [] |}.

Definition state_empty : state := {| heap := ∅; log := [] |}.

(** A world that lists the offers [ids] in one page, serves the feed [rem],
    accepts every update, and whose clock shows the number of requests made
    so far as the second. *)
Definition world_of (ids : list string) (rem : list (gmap string pyval)) : world :=
  {| environ :=
       {[ "SELLER_TOKEN" := "token"; "CLIENT_ID" := "client";
          "MARKET_TOKEN" := "token"; "FBS_ID" := "fbs"; "DBS_ID" := "dbs";
          "WAREHOUSE_FBS_ID" := "warehouse-fbs";
          "WAREHOUSE_DBS_ID" := "warehouse-dbs" ]};
     seller_listing := λ _ _,
       Ret {| sp_items := ids; sp_total := Z.of_nat (length ids); sp_last_id := "" |};
     market_listing := λ _ _,
       Ret {| mp_offerMappingEntries := ids; mp_nextPageToken := None |};
     feed := λ _, Ret rem;
     acknowledge := λ _ _, Ret ();
     utcnow := λ history,
       "2024-01-01T00:00:" +:+ pretty (Z.of_nat (length history)) +:+ "Z" |}.

(** ** An integer literal, as the documentation of [int] describes it *)

(** Text without any character that [int] replaces before it reads. *)
Definition plain_ascii (s : string) : Prop :=
  all_chars (λ c, (N_of_ascii c <? 127)%N) s = true.

Definition blanks (s : string) : Prop := all_chars is_space s = true.

(** [digit_groups body digits]: [body] is one or more groups of decimal
    digits, none empty, with one underscore between two groups; [digits]
    is [body] without the underscores. *)
Inductive digit_groups : string → string → Prop :=
  | groups_last (g : string) :
      g ≠ "" → digits_only g → digit_groups g g
  | groups_more (g rest digits : string) :
      g ≠ "" → digits_only g → digit_groups rest digits →
      digit_groups (g +:+ "_" +:+ rest) (g +:+ digits).

(** [int_literal text z]: [text] writes the integer [z]: blanks, a sign or
    none, groups of digits, blanks; no more digits than [int] accepts. *)
Definition int_literal (text : string) (z : Z) : Prop :=
  ∃ before sign body digits after,
    text = before +:+ sign +:+ body +:+ after
    ∧ blanks before ∧ blanks after
    ∧ (sign = "" ∨ sign = "+" ∨ sign = "-")
    ∧ digit_groups body digits
    ∧ (String.length digits ≤ int_max_str_digits)%nat
    ∧ z = (if decide (sign = "-") then - decimal_value digits
           else decimal_value digits).

(** ** The rows the first loop of [create_stocks] matches *)

(** How many entries of [l] are [x]. *)
Definition occurrences (x : string) (l : list string) : nat :=
  length (filter (λ y, y = x) l).

(** Row [i] of the feed is matched to an offer id: the offer-id list has
    more entries of its code than there are rows with that code before it
    (so the loop, having taken one entry for each of those rows, still finds
    one).  With distinct offer ids these are the first rows of the codes
    that are offer ids. *)
Definition matched_at (rem : list (gmap string pyval)) (ids : list string)
    (i : nat) (watch : gmap string pyval) : Prop :=
  rem !! i = Some watch
  ∧ (occurrences (code_of watch) (map code_of (take i rem))
     < occurrences (code_of watch) ids)%nat.

(** [str] writes the cell.  [str] refuses an integer of more than
    [int_max_str_digits] digits with [ValueError]; the reader of the feed
    makes no such cell, and [py_str] is [str] on all the others. *)
Definition writable (v : pyval) : Prop :=
  match v with
  | PyInt z => (String.length (pretty (Z.abs z)) ≤ int_max_str_digits)%nat
  | _ => True
  end.

(** [str] writes the cells [create_stocks] hands to it while the first loop
    goes through the first [n] rows: the code of each row, and the quantity
    of each matched row. *)
Definition readable (rem : list (gmap string pyval)) (ids : list string)
    (n : nat) : Prop :=
  ∀ j watch, (j < n)%nat → rem !! j = Some watch →
    writable (py_get watch "Код")
    ∧ (matched_at rem ids j watch → writable (py_get watch "Количество")).

(** ** Further notions used by the properties of the whole files *)

(** The rows of the feed whose code is among the offer ids, in feed order. *)
Definition matched_rows (rem : list (gmap string pyval)) (ids : list string)
  : list (gmap string pyval) :=
  filter (λ watch, code_of watch ∈ ids) rem.

(** The campaign (the client, for seller.py) a request is made for. *)
Definition event_campaign (e : event) : option string :=
  match e with
  | EvSellerGetProductList _ client_id _ => Some client_id
  | EvSellerUpdateStocks _ client_id _ => Some client_id
  | EvSellerUpdatePrice _ client_id _ => Some client_id
  | EvMarketGetProductList _ campaign_id _ => Some campaign_id
  | EvMarketUpdateStocks _ campaign_id _ => Some campaign_id
  | EvMarketUpdatePrice _ campaign_id _ => Some campaign_id
  | EvDownloadStock | EvUtcNow | EvPrint _ _ => None
  end.

Definition is_print (e : event) : bool :=
  match e with EvPrint _ _ => true | _ => false end.

(** [m] adds to the log events that satisfy [P], and after them events that
    satisfy [Q], however it ends. *)
Definition emits_then {A} (P Q : event → Prop) (m : M A) : Prop :=
  ∀ st, ∃ evs1 evs2,
    log (m st).2 = log st ++ evs1 ++ evs2 ∧ Forall P evs1 ∧ Forall Q evs2.

(** The state after the requests [evs]. *)
Definition logged (st : state) (evs : list event) : state :=
  {| heap := heap st; log := log st ++ evs |}.

(** The state after a new list object was made for [l]. *)
Definition allocated (st : state) (l : list string) : state :=
  set_list st (fresh (dom (heap st))) l.

(** The listing requests of seller.py (of market.py) for a sequence of
    cursors. *)
Definition seller_listing_events (client_id seller_token : string)
    (cursors : list string) : list event :=
  map (λ last_id, EvSellerGetProductList last_id client_id seller_token) cursors.

Definition market_listing_events (campaign_id market_token : string)
    (cursors : list string) : list event :=
  map (λ page, EvMarketGetProductList page campaign_id market_token) cursors.

(** The page token market.py goes on with: [None] and [""] end the loop. *)
Definition next_page (p : market_page) : option string :=
  match mp_nextPageToken p with
  | None | Some EmptyString => None
  | Some token => Some token
  end.

(** A server that reports three offers and hands out two at a time. *)
Definition world_two_of_three : world :=
  {| environ := ∅;
     seller_listing := λ _ _,
       Ret {| sp_items := ["A"; "B"]; sp_total := 3; sp_last_id := "B" |};
     market_listing := λ _ _,
       Ret {| mp_offerMappingEntries := ["A"; "B"]; mp_nextPageToken := Some "next" |};
     feed := λ _, Ret [];
     acknowledge := λ _ _, Ret ();
     utcnow := λ _, "" |}.

(** The count of the first item of a stock record of market.py. *)
Definition first_count (stock : MarketStock.t) : Z :=
  match MarketStock.items stock with
  | item :: _ => MarketItem.count item
  | [] => 0
  end.

(** A world like [world_of], whose server refuses with an HTTP error every
    update made once the log holds [n] events. *)
Definition world_refusing_after (n : nat) (ids : list string)
    (rem : list (gmap string pyval)) : world :=
  {| environ := environ (world_of ids rem);
     seller_listing := seller_listing (world_of ids rem);
     market_listing := market_listing (world_of ids rem);
     feed := feed (world_of ids rem);
     acknowledge := λ history _,
       if (length history <? n)%nat then Ret () else Raise HTTPError;
     utcnow := utcnow (world_of ids rem) |}.

(** A world like [world_of], whose feed cannot be downloaded. *)
Definition world_without_feed (ids : list string) : world :=
  {| environ := environ (world_of ids []);
     seller_listing := seller_listing (world_of ids []);
     market_listing := market_listing (world_of ids []);
     feed := λ _, Raise ConnectionError;
     acknowledge := acknowledge (world_of ids []);
     utcnow := utcnow (world_of ids []) |}.

(** What a list is after [if code in l: l.remove(code)] for each of [codes]
    in turn: each code takes its first entry out of the list, a code the
    list does not hold takes nothing. *)
Definition consumed (codes : list string) (l : list string) : list string :=
  foldl (λ l code, default l (remove_first code l)) l codes.

(** * Properties *)

(** ** The chunking generator *)

Section divide_facts.
Context {A : Type}.
Implicit Types (lst : list A) (n i j stop step : Z) (k fuel : nat).

Lemma range_up_lookup fuel i stop step k j :
  range_up fuel i stop step !! k = Some j →
  j = i + Z.of_nat k * step ∧ j < stop.
Proof.
  revert i k. induction fuel as [|fuel IH]; intros i k; simpl; [done|].
  destruct (i <? stop) eqn:Hlt; [|done].
  apply Z.ltb_lt in Hlt. destruct k as [|k]; simpl.
  - intros [= <-]. lia.
  - intros Hk. apply IH in Hk. lia.
Qed.

Lemma range_up_length fuel i stop step :
  0 < step → stop - i ≤ Z.of_nat fuel →
  Z.of_nat (length (range_up fuel i stop step))
  = Z.max 0 ((stop - i + step - 1) / step).
Proof.
  intros Hstep. revert i. induction fuel as [|fuel IH]; intros i Hfuel; simpl.
  - assert ((stop - i + step - 1) / step ≤ 0); [|lia].
    apply Z.lt_succ_r, Z.div_lt_upper_bound; lia.
  - destruct (i <? stop) eqn:Hlt.
    + apply Z.ltb_lt in Hlt. simpl length. rewrite Nat2Z.inj_succ, IH by lia.
      replace (stop - i + step - 1) with ((stop - (i + step) + step - 1) + 1 * step)
        by lia.
      rewrite Z.div_add by lia.
      assert (0 ≤ (stop - (i + step) + step - 1) / step)
        by (apply Z.div_pos; lia).
      lia.
    + apply Z.ltb_ge in Hlt. simpl.
      assert ((stop - i + step - 1) / step ≤ 0); [|lia].
      apply Z.lt_succ_r, Z.div_lt_upper_bound; lia.
Qed.

Lemma py_slice_chunk lst i n :
  0 ≤ i → 0 < n →
  py_slice lst i (i + n) = take (Z.to_nat n) (drop (Z.to_nat i) lst).
Proof.
  intros Hi Hn. unfold py_slice, slice_bound.
  destruct (i <? 0) eqn:H1; [apply Z.ltb_lt in H1; lia|].
  destruct (i + n <? 0) eqn:H2; [apply Z.ltb_lt in H2; lia|].
  destruct (decide (Z.of_nat (length lst) ≤ i)) as [Hge|Hlt].
  - rewrite !drop_ge by lia. by rewrite !take_nil.
  - replace (Z.to_nat (i `min` Z.of_nat (length lst))) with (Z.to_nat i) by lia.
    destruct (decide (i + n ≤ Z.of_nat (length lst))).
    + f_equal. lia.
    + rewrite !take_ge; [done| |]; rewrite length_drop; lia.
Qed.

Lemma concat_chunks fuel lst i n :
  0 ≤ i → 0 < n → Z.of_nat (length lst) - i ≤ Z.of_nat fuel →
  concat (map (λ j, py_slice lst j (j + n))
            (range_up fuel i (Z.of_nat (length lst)) n))
  = drop (Z.to_nat i) lst.
Proof.
  intros Hi Hn. revert i Hi.
  induction fuel as [|fuel IH]; intros i Hi Hfuel; simpl.
  - rewrite drop_ge; [done|lia].
  - destruct (i <? Z.of_nat (length lst)) eqn:Hlt.
    + simpl. rewrite IH, py_slice_chunk by lia.
      replace (Z.to_nat (i + n)) with (Z.to_nat i + Z.to_nat n)%nat by lia.
      by rewrite <- drop_drop, take_drop.
    + apply Z.ltb_ge in Hlt. rewrite drop_ge; [done|lia].
Qed.

Lemma divide_positive lst n :
  0 < n →
  divide lst n
  = Ret (map (λ j, py_slice lst j (j + n))
           (range_up (length lst) 0 (Z.of_nat (length lst)) n)).
Proof.
  intros Hn. unfold divide, py_range.
  destruct (n =? 0) eqn:H0; [apply Z.eqb_eq in H0; lia|].
  destruct (0 <? n) eqn:H1; [|apply Z.ltb_ge in H1; lia].
  simpl. by rewrite Z.sub_0_r, Nat2Z.id.
Qed.

(** The [k]-th chunk is the slice that starts at [k * n]. *)
Lemma divide_lookup lst n chunks k chunk :
  0 < n → divide lst n = Ret chunks → chunks !! k = Some chunk →
  chunk = take (Z.to_nat n) (drop (k * Z.to_nat n) lst)
  ∧ Z.of_nat k * n < Z.of_nat (length lst).
Proof.
  intros Hn Hdiv Hk. rewrite divide_positive in Hdiv by done.
  injection Hdiv as <-. rewrite list_lookup_fmap in Hk.
  destruct (range_up _ _ _ _ !! k) as [j|] eqn:Hj; [|done].
  apply range_up_lookup in Hj as [-> Hj]. simpl in Hk. injection Hk as <-.
  split; [|lia]. rewrite py_slice_chunk by lia. do 2 f_equal. lia.
Qed.

Lemma divide_length lst n chunks :
  0 < n → divide lst n = Ret chunks →
  Z.of_nat (length chunks) = (Z.of_nat (length lst) + n - 1) / n.
Proof.
  intros Hn Hdiv. rewrite divide_positive in Hdiv by done.
  injection Hdiv as <-. rewrite length_map, range_up_length by lia.
  rewrite Z.sub_0_r. apply Z.max_r, Z.div_pos; lia.
Qed.
End divide_facts.

(** C6.  For every list and every [0 < n], [divide] returns chunks whose
    concatenation is the list; the [k]-th chunk is the [n] elements from
    index [k * n] on (fewer at the end of the list), so every chunk but the
    last has exactly [n] elements and none is empty; and there are
    [ceil(len / n)] chunks, the least count [c] with [len <= c * n]. *)
Theorem divide_chunks {A} (lst : list A) (n : Z) :
  0 < n →
  ∃ chunks,
    divide lst n = Ret chunks
    ∧ concat chunks = lst
    ∧ (∀ k chunk, chunks !! k = Some chunk →
         chunk = take (Z.to_nat n) (drop (k * Z.to_nat n) lst)
         ∧ (0 < length chunk ≤ Z.to_nat n)%nat
         ∧ (S k < length chunks → Z.of_nat (length chunk) = n)%nat)
    ∧ Z.of_nat (length chunks) = (Z.of_nat (length lst) + n - 1) / n
    ∧ (Z.of_nat (length chunks) - 1) * n < Z.of_nat (length lst)
      ≤ Z.of_nat (length chunks) * n.
Proof.
  intros Hn. pose proof (divide_positive lst n Hn) as Hdiv.
  eexists. split; [exact Hdiv|].
  pose proof (divide_length lst n _ Hn Hdiv) as Hlen.
  assert (Hceil : (Z.of_nat (length (map (λ j, py_slice lst j (j + n))
                     (range_up (length lst) 0 (Z.of_nat (length lst)) n))) - 1) * n
                  < Z.of_nat (length lst)
                  ≤ Z.of_nat (length (map (λ j, py_slice lst j (j + n))
                     (range_up (length lst) 0 (Z.of_nat (length lst)) n))) * n).
  { rewrite Hlen. set (len := Z.of_nat (length lst)).
    pose proof (Z.div_mod (len + n - 1) n ltac:(lia)).
    pose proof (Z.mod_pos_bound (len + n - 1) n Hn). nia. }
  split; [|split; [|done]].
  - rewrite concat_chunks by lia. done.
  - intros k chunk Hk.
    destruct (divide_lookup lst n _ k chunk Hn Hdiv Hk) as [-> Hstart].
    split; [done|]. rewrite length_take, length_drop.
    split; [lia|]. intros Hnext.
    assert (Z.of_nat (S k) * n < Z.of_nat (length lst)); [|nia].
    destruct (lookup_lt_is_Some_2 _ _ Hnext) as [next Hnext'].
    by destruct (divide_lookup lst n _ (S k) next Hn Hdiv Hnext').
Qed.

Lemma divide_chunks_witness :
  ∃ chunks, divide [1; 2; 3; 4; 5] 2 = Ret chunks ∧ concat chunks = [1; 2; 3; 4; 5].
Proof.
  destruct (divide_chunks [1; 2; 3; 4; 5] 2 ltac:(lia)) as (chunks & Hd & Hc & _).
  exists chunks. split; [exact Hd|exact Hc].
Defined.

(** C7, as the code has it.  A zero step makes [range] raise [ValueError],
    and no chunk comes out; with a negative step [range] is empty: [divide]
    raises nothing and yields no chunk. *)
Theorem divide_step_not_positive {A} (lst : list A) (n : Z) :
  n ≤ 0 →
  divide lst n = if decide (n = 0) then Raise ValueError else Ret [].
Proof.
  intros Hn. unfold divide, py_range. case_decide as H0.
  - subst n. done.
  - destruct (n =? 0) eqn:E0; [apply Z.eqb_eq in E0; lia|].
    destruct (0 <? n) eqn:E1; [apply Z.ltb_lt in E1; lia|].
    simpl. by replace (Z.to_nat (0 - Z.of_nat (length lst))) with 0%nat by lia.
Qed.

Lemma divide_step_not_positive_witness :
  divide [1; 2; 3; 4] 0 = Raise ValueError ∧ divide [1; 2; 3; 4] (-2) = Ret [].
Proof.
  split.
  - exact (divide_step_not_positive [1; 2; 3; 4] 0 ltac:(lia)).
  - exact (divide_step_not_positive [1; 2; 3; 4] (-2) ltac:(lia)).
Defined.

(** C7 as the claim words it fails: a negative [n] raises no error. *)
Lemma divide_negative_step_no_error :
  (-1) ≤ 0 ∧ ¬ ∃ e, divide [1; 2; 3; 4] (-1) = Raise e.
Proof. split; [lia|]. intros [e He]. vm_compute in He. discriminate. Qed.

(** ** The price normaliser *)

Lemma py_split_head (s : string) :
  ∃ pieces, py_split "." s = before_first_dot s :: pieces.
Proof.
  induction s as [|c r [pieces IH]]; simpl; [by eexists|].
  destruct (Ascii.eqb c "."); [by eexists|]. rewrite IH. by eexists.
Qed.

Lemma re_sub_keep_digits (s : string) : re_sub_non_digits s = keep_digits s.
Proof.
  unfold keep_digits. induction s as [|c r IH]; simpl; [done|].
  rewrite filter_cons. destruct (is_digit c) eqn:Hc.
  - rewrite decide_True by done. simpl. by rewrite IH.
  - rewrite decide_False by done. done.
Qed.

Lemma re_sub_digits_only (s : string) : digits_only (re_sub_non_digits s).
Proof.
  unfold digits_only. induction s as [|c r IH]; simpl; [done|].
  destruct (is_digit c) eqn:Hc; simpl; [by rewrite Hc|done].
Qed.

Lemma re_sub_no_digit (s : string) : no_digit s → re_sub_non_digits s = "".
Proof.
  unfold no_digit. induction s as [|c r IH]; simpl; [done|].
  intros [Hc Hr]%andb_prop. destruct (is_digit c); [done|auto].
Qed.

Lemma re_sub_id (s : string) : digits_only s → re_sub_non_digits s = s.
Proof.
  unfold digits_only. induction s as [|c r IH]; simpl; [done|].
  intros [Hc Hr]%andb_prop. rewrite Hc. by rewrite IH.
Qed.

Lemma is_digit_not_dot (c : ascii) : is_digit c = true → Ascii.eqb c "." = false.
Proof.
  intros Hc. destruct (Ascii.eqb_spec c "."); [|done]. by subst c.
Qed.

Lemma before_first_dot_app (whole frac : string) :
  digits_only whole →
  before_first_dot (whole +:+ "." +:+ frac) = whole.
Proof.
  unfold digits_only. induction whole as [|c r IH]; simpl; [done|].
  intros [Hc Hr]%andb_prop. rewrite (is_digit_not_dot c Hc). by rewrite IH.
Qed.

Lemma price_conversion_str (p : string) :
  price_conversion (PyStr p) = Ret (re_sub_non_digits (before_first_dot p)).
Proof.
  unfold price_conversion. by destruct (py_split_head p) as [pieces ->].
Qed.

(** C5.  On every string, [price_conversion] returns what the specification
    words: the text before the first ["."] with every character that is not
    an ASCII digit removed.  The result holds digits only; it is empty when
    no digit stands before the first ["."]; and digits followed by ["."] and
    anything come back unchanged, whatever the fraction is (cut, not
    rounded). *)
Theorem price_conversion_normalizes (p : string) :
  price_conversion (PyStr p) = Ret (normalize_spec p)
  ∧ digits_only (normalize_spec p)
  ∧ (no_digit (before_first_dot p) → price_conversion (PyStr p) = Ret "")
  ∧ (∀ whole frac, p = whole +:+ "." +:+ frac → digits_only whole →
       price_conversion (PyStr p) = Ret whole)
  ∧ price_conversion (PyStr "5'990.00 руб.") = Ret "5990"
  ∧ price_conversion (PyStr "1,234.56") = Ret "1234"
  ∧ price_conversion (PyStr "1.99") = Ret "1".
Proof.
  rewrite price_conversion_str. unfold normalize_spec.
  rewrite <- re_sub_keep_digits. repeat split.
  - apply re_sub_digits_only.
  - intros Hnone. by rewrite re_sub_no_digit.
  - intros whole frac -> Hwhole. by rewrite before_first_dot_app, re_sub_id.
Qed.

Lemma price_conversion_normalizes_witness :
  price_conversion (PyStr "руб.12") = Ret ""
  ∧ price_conversion (PyStr "1234.56") = Ret "1234".
Proof.
  split.
  - apply (price_conversion_normalizes "руб.12"). reflexivity.
  - apply (price_conversion_normalizes "1234.56") with (frac := "56"); reflexivity.
Defined.

(** ** The count-bucketing policy *)

Lemma is_digit_not_space (c : ascii) : is_digit c = true → is_space c = false.
Proof.
  unfold is_digit, is_space. intros [H1 H2]%andb_prop.
  apply Nat.leb_le in H1. apply Nat.leb_le in H2.
  apply orb_false_intro; [apply Nat.eqb_neq; lia|].
  apply andb_false_intro2, Nat.leb_gt. lia.
Qed.

Lemma is_digit_not_sign (c : ascii) :
  is_digit c = true → Ascii.eqb c "+" = false ∧ Ascii.eqb c "-" = false.
Proof.
  intros Hc. split.
  - destruct (Ascii.eqb_spec c "+"); [by subst c|done].
  - destruct (Ascii.eqb_spec c "-"); [by subst c|done].
Qed.

Lemma digit_value_range (c : ascii) : is_digit c = true → 0 ≤ digit_value c ≤ 9.
Proof.
  unfold is_digit, digit_value. intros [H1 H2]%andb_prop.
  apply Nat.leb_le in H1. apply Nat.leb_le in H2. lia.
Qed.

Lemma lstrip_digits (s : string) : digits_only s → lstrip s = s.
Proof.
  unfold digits_only. destruct s as [|c r]; simpl; [done|].
  intros [Hc _]%andb_prop. by rewrite (is_digit_not_space c Hc).
Qed.

Lemma rstrip_digits (s : string) : digits_only s → rstrip s = s.
Proof.
  unfold digits_only. induction s as [|c r IH]; simpl; [done|].
  intros [Hc Hr]%andb_prop. rewrite IH by done.
  destruct r; [|done]. by rewrite (is_digit_not_space c Hc).
Qed.

(** Reading digits is Horner's rule. *)
Lemma int_digits_decimal (s : string) (acc : Z) (seen : nat) (after_digit : bool) :
  digits_only s → s ≠ "" ∨ after_digit = true →
  int_digits acc seen after_digit s
  = Some (acc * 10 ^ Z.of_nat (String.length s) + decimal_value s,
          (seen + String.length s)%nat).
Proof.
  unfold digits_only. revert acc seen after_digit.
  induction s as [|c r IH]; intros acc seen after_digit; simpl.
  - intros _ [?| ->]; [done|]. do 2 f_equal; lia.
  - intros [Hc Hr]%andb_prop _. rewrite Hc, IH by auto.
    rewrite Nat2Z.inj_succ, Z.pow_succ_r by lia. do 2 f_equal; lia.
Qed.


Lemma int_unsigned_cases (s : string) :
  (∃ z, int_unsigned s = Ret z) ∨ int_unsigned s = Raise ValueError.
Proof.
  unfold int_unsigned. destruct (int_digits 0 0 false s) as [[z seen]|]; [|by right].
  destruct (seen <=? int_max_str_digits)%nat; [left; by eexists|by right].
Qed.

Lemma py_int_ascii_cases (s : string) :
  (∃ z, py_int_ascii s = Ret z) ∨ py_int_ascii s = Raise ValueError.
Proof.
  unfold py_int_ascii. destruct (rstrip (lstrip s)) as [|c r].
  - apply int_unsigned_cases.
  - destruct (Ascii.eqb c "+"); [apply int_unsigned_cases|].
    destruct (Ascii.eqb c "-"); [|apply int_unsigned_cases].
    destruct (int_unsigned_cases r) as [[z ->]| ->]; [left; by eexists|by right].
Qed.

(** [int] of a string gives an integer or [ValueError], nothing else. *)
Lemma py_int_str_cases (s : string) :
  (∃ z, py_int_str s = Ret z) ∨ py_int_str s = Raise ValueError.
Proof. apply py_int_ascii_cases. Qed.

(** Text of ASCII characters is read as it is. *)
Lemma transform_plain_ascii (s : string) :
  plain_ascii s → transform_decimal_and_space_to_ascii s = s.
Proof.
  unfold plain_ascii. induction s as [|c r IH]; simpl; [done|].
  intros [Hc Hr]%andb_prop. rewrite Hc. by rewrite IH.
Qed.

Lemma is_digit_plain (c : ascii) : is_digit c = true → (N_of_ascii c <? 127)%N = true.
Proof.
  unfold is_digit, nat_of_ascii. intros [H1 H2]%andb_prop.
  apply Nat.leb_le in H2. apply N.ltb_lt. lia.
Qed.

Lemma digits_plain_ascii (s : string) : digits_only s → plain_ascii s.
Proof.
  unfold digits_only, plain_ascii. induction s as [|c r IH]; simpl; [done|].
  intros [Hc Hr]%andb_prop. by rewrite (is_digit_plain c Hc), IH.
Qed.

Lemma py_int_ascii_decimal (s : string) :
  digits_only s → s ≠ "" → (String.length s ≤ int_max_str_digits)%nat →
  py_int_ascii s = Ret (decimal_value s).
Proof.
  intros Hs Hne Hlen. unfold py_int_ascii.
  rewrite lstrip_digits, rstrip_digits by done.
  destruct s as [|c r] eqn:Es; [done|]. rewrite <- Es in *.
  assert (Hc : is_digit c = true).
  { rewrite Es in Hs. unfold digits_only in Hs. simpl in Hs.
    by apply andb_prop in Hs as [? _]. }
  destruct (is_digit_not_sign c Hc) as [-> ->].
  unfold int_unsigned. rewrite int_digits_decimal by auto.
  simpl Nat.add. apply Nat.leb_le in Hlen. rewrite Hlen. f_equal; lia.
Qed.

Lemma py_int_str_decimal (s : string) :
  digits_only s → s ≠ "" → (String.length s ≤ int_max_str_digits)%nat →
  py_int_str s = Ret (decimal_value s).
Proof.
  intros Hs Hne Hlen. unfold py_int_str.
  rewrite transform_plain_ascii by by apply digits_plain_ascii.
  by apply py_int_ascii_decimal.
Qed.

(** *** Text put together *)

Lemma append_nil_l (s : string) : "" +:+ s = s.
Proof. reflexivity. Qed.

Lemma append_cons (c : ascii) (r s : string) : String c r +:+ s = String c (r +:+ s).
Proof. reflexivity. Qed.

Ltac text := rewrite ?append_cons, ?append_nil_l; simpl.

Lemma append_nil_r (s : string) : s +:+ "" = s.
Proof. induction s as [|c r IH]; text; [done|]. by rewrite IH. Qed.

Lemma append_assoc (a b c : string) : (a +:+ b) +:+ c = a +:+ b +:+ c.
Proof. induction a as [|x a IH]; text; [done|]. by rewrite IH. Qed.

Lemma length_append (a b : string) :
  String.length (a +:+ b) = (String.length a + String.length b)%nat.
Proof. induction a as [|x a IH]; text; [done|]. by rewrite IH. Qed.

Lemma all_chars_append (P : ascii → bool) (a b : string) :
  all_chars P (a +:+ b) = all_chars P a && all_chars P b.
Proof. induction a as [|x a IH]; text; [done|]. by rewrite IH, andb_assoc. Qed.

Lemma decimal_value_append (a b : string) :
  decimal_value (a +:+ b)
  = decimal_value a * 10 ^ Z.of_nat (String.length b) + decimal_value b.
Proof.
  induction a as [|x a IH]; text; [lia|].
  rewrite IH, length_append, Nat2Z.inj_add, Z.pow_add_r by lia. lia.
Qed.

(** *** The blanks around a literal *)

Lemma lstrip_blanks_append (b x : string) : blanks b → lstrip (b +:+ x) = lstrip x.
Proof.
  unfold blanks. induction b as [|c b IH]; text; [done|].
  intros [Hc Hb]%andb_prop. rewrite Hc. auto.
Qed.

Lemma lstrip_split (s : string) : ∃ b, blanks b ∧ s = b +:+ lstrip s.
Proof.
  induction s as [|c r (b & Hb & IH)]; [by exists ""|]. simpl.
  destruct (is_space c) eqn:Hc.
  - exists (String c b). split; [unfold blanks; simpl; by rewrite Hc|].
    text. by rewrite <- IH.
  - by exists "".
Qed.

Lemma rstrip_blanks (a : string) : blanks a → rstrip a = "".
Proof.
  unfold blanks. induction a as [|c a IH]; simpl; [done|].
  intros [Hc Ha]%andb_prop. by rewrite IH, Hc.
Qed.

Lemma rstrip_append_blanks (y a : string) : blanks a → rstrip (y +:+ a) = rstrip y.
Proof.
  intros Ha. induction y as [|c y IH]; text; [by apply rstrip_blanks|].
  by rewrite IH.
Qed.

Lemma rstrip_split (s : string) : ∃ a, blanks a ∧ s = rstrip s +:+ a.
Proof.
  induction s as [|c r (a & Ha & IH)]; [by exists ""|]. simpl.
  destruct (rstrip r) as [|c' r'] eqn:Hr.
  - rewrite append_nil_l in IH. subst r. destruct (is_space c) eqn:Hc.
    + exists (String c a). split; [unfold blanks; simpl; by rewrite Hc|done].
    + by exists a.
  - exists a. split; [done|]. rewrite (append_cons c). by rewrite <- IH.
Qed.

Lemma rstrip_append_digits (y g : string) :
  digits_only g → g ≠ "" → rstrip (y +:+ g) = y +:+ g.
Proof.
  intros Hg Hne. induction y as [|c y IH]; text; [by apply rstrip_digits|].
  rewrite IH. destruct (y +:+ g) eqn:Hyg; [|done].
  destruct y; [done|discriminate].
Qed.

(** *** The digits of a literal *)

Lemma digits_only_append (a b : string) :
  digits_only a → digits_only b → digits_only (a +:+ b).
Proof. unfold digits_only. rewrite all_chars_append. by intros -> ->. Qed.

Lemma digit_groups_digits (body digits : string) :
  digit_groups body digits → digits_only digits ∧ digits ≠ "".
Proof.
  induction 1 as [g Hne Hg|g rest digits Hne Hg _ [IH _]]; [done|].
  split; [by apply digits_only_append|]. by destruct g.
Qed.

(** A body starts with a digit and ends with a group of digits. *)
Lemma digit_groups_ends (body digits : string) :
  digit_groups body digits →
  (∃ c r, body = String c r ∧ is_digit c = true)
  ∧ (∃ pre g, body = pre +:+ g ∧ digits_only g ∧ g ≠ "").
Proof.
  induction 1 as [g Hne Hg|g rest digits Hne Hg _ [_ (pre & g' & -> & Hg' & Hne')]].
  - split; [|by exists "", g].
    destruct g as [|c r]; [done|]. exists c, r. split; [done|].
    unfold digits_only in Hg. simpl in Hg. by apply andb_prop in Hg as [? _].
  - split.
    + destruct g as [|c r]; [done|]. exists c, (r +:+ "_" +:+ pre +:+ g').
      split; [done|].
      unfold digits_only in Hg. simpl in Hg. by apply andb_prop in Hg as [? _].
    + exists (g +:+ "_" +:+ pre), g'. split; [|done].
      by rewrite !append_assoc.
Qed.

Lemma int_digits_append_digits (g x : string) (acc : Z) (seen : nat) (after : bool) :
  digits_only g → g ≠ "" →
  int_digits acc seen after (g +:+ x)
  = int_digits (acc * 10 ^ Z.of_nat (String.length g) + decimal_value g)
      (seen + String.length g) true x.
Proof.
  unfold digits_only. revert acc seen after.
  induction g as [|c g IH]; intros acc seen after Hg Hne; [done|].
  simpl in *. apply andb_prop in Hg as [Hc Hg]. rewrite Hc.
  destruct g as [|c' g'].
  - simpl. f_equal; lia.
  - rewrite IH by done. simpl String.length.
    rewrite !Nat2Z.inj_succ, !Z.pow_succ_r by lia. f_equal; lia.
Qed.

Lemma int_digits_groups (body digits : string) :
  digit_groups body digits →
  ∀ acc seen after,
    int_digits acc seen after body
    = Some (acc * 10 ^ Z.of_nat (String.length digits) + decimal_value digits,
            (seen + String.length digits)%nat).
Proof.
  induction 1 as [g Hne Hg|g rest digits Hne Hg Hrest IH]; intros acc seen after.
  - apply int_digits_decimal; auto.
  - rewrite int_digits_append_digits by done. simpl.
    rewrite IH, length_append, decimal_value_append, Nat2Z.inj_add, Z.pow_add_r by lia.
    f_equal. f_equal; lia.
Qed.

(** What [int_digits] accepts: digits that go on the current group, then
    nothing or an underscore and a body. *)
Lemma int_digits_sound (s : string) (acc : Z) (seen : nat) (after : bool)
    (v : Z) (n : nat) :
  int_digits acc seen after s = Some (v, n) →
  ∃ g digits,
    digits_only g ∧ (after = true ∨ g ≠ "")
    ∧ ((s = g ∧ digits = g)
       ∨ ∃ body rest, s = g +:+ "_" +:+ body ∧ digit_groups body rest
                      ∧ digits = g +:+ rest)
    ∧ v = acc * 10 ^ Z.of_nat (String.length digits) + decimal_value digits
    ∧ n = (seen + String.length digits)%nat.
Proof.
  revert acc seen after. induction s as [|c r IH]; intros acc seen after; simpl.
  - destruct after; [|done]. intros [= <- <-]. exists "", "".
    split; [done|]. split; [by left|]. split; [by left|]. simpl. split; lia.
  - destruct (is_digit c) eqn:Hc.
    + intros Hrun. destruct (IH _ _ _ Hrun) as (g & digits & Hg & _ & Hshape & -> & ->).
      exists (String c g), (String c digits).
      split; [unfold digits_only in *; simpl; by rewrite Hc, Hg|].
      split; [by right|]. split.
      * destruct Hshape as [[-> ->]|(body & rest & -> & Hbody & ->)]; [by left|].
        right. by exists body, rest.
      * simpl String.length. simpl decimal_value.
        rewrite Nat2Z.inj_succ, Z.pow_succ_r by lia. split; lia.
    + destruct (Ascii.eqb_spec c "_") as [->|]; [|done].
      destruct after; [|done]. simpl. intros Hrun.
      destruct (IH _ _ _ Hrun) as (g & digits & Hg & [?|Hne] & Hshape & -> & ->);
        [done|].
      exists "", digits. split; [done|]. split; [by left|]. split; [|done].
      right. exists r, digits. split; [done|]. split; [|done].
      destruct Hshape as [[-> ->]|(body & rest & -> & Hbody & ->)].
      * by apply groups_last.
      * by apply groups_more.
Qed.

Lemma int_unsigned_literal (s : string) (z : Z) :
  int_unsigned s = Ret z
  ↔ ∃ digits, digit_groups s digits
      ∧ (String.length digits ≤ int_max_str_digits)%nat
      ∧ z = decimal_value digits.
Proof.
  unfold int_unsigned. split.
  - destruct (int_digits 0 0 false s) as [[v n]|] eqn:Hrun; [|done].
    destruct (n <=? int_max_str_digits)%nat eqn:Hn; [|done]. intros [= <-].
    apply Nat.leb_le in Hn.
    destruct (int_digits_sound _ _ _ _ _ _ Hrun)
      as (g & digits & Hg & [?|Hne] & Hshape & -> & ->); [done|].
    exists digits. split; [|split; [done|lia]].
    destruct Hshape as [[-> ->]|(body & rest & -> & Hbody & ->)].
    + by apply groups_last.
    + by apply groups_more.
  - intros (digits & Hbody & Hlen & ->).
    rewrite (int_digits_groups _ _ Hbody). simpl Nat.add.
    apply Nat.leb_le in Hlen. rewrite Hlen. f_equal; lia.
Qed.

(** [int] of ASCII text returns [z] exactly when the text is a literal
    of [z]. *)
Lemma py_int_ascii_literal (t : string) (z : Z) :
  py_int_ascii t = Ret z ↔ int_literal t z.
Proof.
  unfold py_int_ascii, int_literal. split.
  - destruct (lstrip_split t) as (before & Hbefore & Ht).
    destruct (rstrip_split (lstrip t)) as (after & Hafter & Hu).
    destruct (rstrip (lstrip t)) as [|c r] eqn:Hstripped.
    { intros Hrun. vm_compute in Hrun. discriminate. }
    destruct (Ascii.eqb_spec c "+") as [->|Hplus].
    { intros (digits & Hbody & Hlen & ->)%int_unsigned_literal.
      exists before, "+", r, digits, after.
      rewrite Ht at 1. rewrite Hu. by repeat split; auto. }
    destruct (Ascii.eqb_spec c "-") as [->|Hminus].
    { destruct (int_unsigned r) as [z'|e|] eqn:Hr; simpl; [|done..].
      intros [= <-]. apply int_unsigned_literal in Hr as (digits & Hbody & Hlen & ->).
      exists before, "-", r, digits, after.
      rewrite Ht at 1. rewrite Hu. by repeat split; auto. }
    intros (digits & Hbody & Hlen & ->)%int_unsigned_literal.
    exists before, "", (String c r), digits, after.
    rewrite Ht at 1. rewrite Hu. by repeat split; auto.
  - intros (before & sign & body & digits & after
            & -> & Hbefore & Hafter & Hsign & Hbody & Hlen & ->).
    destruct (digit_groups_ends _ _ Hbody)
      as [(c & r & Hfirst & Hc) (pre & g & Hlast & Hg & Hne)].
    rewrite lstrip_blanks_append by done.
    assert (lstrip (sign +:+ body +:+ after) = sign +:+ body +:+ after) as ->.
    { destruct Hsign as [->|[->| ->]]; [|done..].
      rewrite Hfirst. simpl. by rewrite (is_digit_not_space c Hc). }
    rewrite <- append_assoc, rstrip_append_blanks by done.
    assert (rstrip (sign +:+ body) = sign +:+ body) as ->.
    { rewrite Hlast, <- append_assoc. by apply rstrip_append_digits. }
    assert (int_unsigned body = Ret (decimal_value digits)) as Hvalue.
    { apply int_unsigned_literal. by exists digits. }
    destruct Hsign as [->|[->| ->]].
    + rewrite append_nil_l. rewrite Hfirst in *.
      destruct (is_digit_not_sign c Hc) as [-> ->]. done.
    + rewrite append_cons, append_nil_l. simpl. done.
    + rewrite append_cons, append_nil_l. simpl. by rewrite Hvalue.
Qed.

(** The writing of a whole number, as [str] makes it. *)
Lemma pretty_N_char_digit (d : N) :
  (d < 10)%N →
  is_digit (pretty_N_char d) = true ∧ digit_value (pretty_N_char d) = Z.of_N d.
Proof.
  intros Hd.
  assert (d = 0 ∨ d = 1 ∨ d = 2 ∨ d = 3 ∨ d = 4 ∨ d = 5 ∨ d = 6 ∨ d = 7
          ∨ d = 8 ∨ d = 9)%N as Hcases by lia.
  repeat (destruct Hcases as [->|Hcases]; [done|]). by subst d.
Qed.

Lemma pretty_N_go_decimal (x : N) (s : string) :
  digits_only s →
  digits_only (pretty_N_go x s)
  ∧ decimal_value (pretty_N_go x s)
    = Z.of_N x * 10 ^ Z.of_nat (String.length s) + decimal_value s
  ∧ (String.length s ≤ String.length (pretty_N_go x s))%nat
  ∧ ((0 < x)%N → pretty_N_go x s ≠ "").
Proof.
  revert s. induction (N.lt_wf_0 x) as [x _ IH]; intros s Hs.
  destruct (decide (x = 0)%N) as [->|Hx].
  - rewrite pretty_N_go_0. split; [done|]. split; [simpl; lia|]. split; [done|lia].
  - rewrite pretty_N_go_step by lia.
    destruct (pretty_N_char_digit (x `mod` 10)%N) as [Hdigit Hvalue].
    { apply N.mod_lt. lia. }
    destruct (IH (x `div` 10)%N) with (s := String (pretty_N_char (x `mod` 10)%N) s)
      as (Hd & Hv & Hl & _).
    { apply N.div_lt; lia. }
    { unfold digits_only in *. simpl. by rewrite Hdigit, Hs. }
    split; [done|]. split; [|split].
    + rewrite Hv. simpl decimal_value. rewrite Hvalue. simpl String.length.
      rewrite Nat2Z.inj_succ, Z.pow_succ_r by lia.
      pose proof (N.div_mod x 10 ltac:(lia)) as Hdm.
      rewrite N2Z.inj_div, N2Z.inj_mod.
      pose proof (Z.div_mod (Z.of_N x) 10 ltac:(lia)).
      change (Z.of_N 10) with 10. lia.
    + simpl in Hl. lia.
    + intros _ Hempty. rewrite Hempty in Hl. simpl in Hl. lia.
Qed.

Lemma pretty_pos_decimal (p : positive) :
  digits_only (pretty (Z.pos p)) ∧ decimal_value (pretty (Z.pos p)) = Z.pos p
  ∧ pretty (Z.pos p) ≠ "".
Proof.
  unfold pretty, pretty_Z, pretty, pretty_positive, pretty, pretty_N.
  rewrite decide_False by done.
  destruct (pretty_N_go_decimal (N.pos p) "" eq_refl) as (Hd & Hv & _ & Hne).
  split; [done|]. split; [|by apply Hne]. rewrite Hv. simpl. lia.
Qed.

Lemma pretty_not_sentinel (z : Z) : pretty z ≠ ">10".
Proof.
  destruct z as [|p|p]; [done| |done].
  destruct (pretty_pos_decimal p) as (Hd & _ & _). intros Heq.
  by rewrite Heq in Hd.
Qed.

(** C4.  The bucketing is a function of the quantity cell: a cell that
    reads [">10"] gives 100, one that reads ["1"] gives 0.  On any other
    string it is [int]: the answer is the integer [z] exactly when the
    string, its blanks and digits of other scripts put in ASCII as [int]
    does first, is a literal of [z] (blanks, a sign or none, groups of
    decimal digits with single underscores between them, blanks); on every
    string that is no literal, whatever it holds, the answer is the parse
    error [ValueError]; so a string gets an integer or [ValueError],
    nothing else, and a string of decimal digits gets the integer it
    writes.  A cell that holds a whole number other than 1 gives that
    number, an empty cell gives [TypeError]. *)
Theorem stock_of_buckets (watch : gmap string pyval) :
  let quantity := py_get watch "Количество" in
  (py_str quantity = ">10" → stock_of watch = Ret 100)
  ∧ (py_str quantity = "1" → stock_of watch = Ret 0)
  ∧ (∀ s, quantity = PyStr s → s ≠ ">10" → s ≠ "1" →
       let text := transform_decimal_and_space_to_ascii s in
       (∀ z, stock_of watch = Ret z ↔ int_literal text z)
       ∧ ((¬ ∃ z, int_literal text z) → stock_of watch = Raise ValueError)
       ∧ (plain_ascii s → text = s)
       ∧ ((∃ z, stock_of watch = Ret z) ∨ stock_of watch = Raise ValueError)
       ∧ (digits_only s → s ≠ "" → (String.length s ≤ int_max_str_digits)%nat →
            stock_of watch = Ret (decimal_value s)))
  ∧ (∀ z, quantity = PyInt z → writable quantity →
       stock_of watch = Ret (if decide (z = 1) then 0 else z))
  ∧ (quantity = PyNone → stock_of watch = Raise TypeError).
Proof.
  unfold stock_of. simpl. split; [|split; [|split; [|split]]].
  - intros ->. done.
  - intros ->. done.
  - intros s -> H10 H1. simpl. rewrite !decide_False by done.
    split; [|split; [|split; [|split]]].
    + intros z. apply py_int_ascii_literal.
    + intros Hnone. destruct (py_int_str_cases s) as [[z Hz]|Hz]; [|done].
      destruct Hnone. exists z. by apply py_int_ascii_literal.
    + apply transform_plain_ascii.
    + apply py_int_str_cases.
    + intros Hs Hne Hlen. by apply py_int_str_decimal.
  - intros z -> _. simpl. rewrite decide_False by apply pretty_not_sentinel.
    destruct (decide (z = 1)) as [->|Hz]; [done|].
    rewrite decide_False; [done|].
    change "1"%string with (pretty 1). by intros ?%(inj pretty).
  - intros ->. done.
Qed.

Lemma stock_of_buckets_witness :
  stock_of {[ "Количество" := PyStr ">10" ]} = Ret 100
  ∧ stock_of {[ "Количество" := PyInt 1 ]} = Ret 0
  ∧ stock_of {[ "Количество" := PyInt 12 ]} = Ret 12
  ∧ stock_of {[ "Количество" := PyStr "7" ]} = Ret 7
  ∧ stock_of {[ "Количество" := PyStr " -1_000 " ]} = Ret (-1000)
  ∧ stock_of {[ "Количество" := PyStr "٣" ]} = Ret 3
  ∧ stock_of {[ "Количество" := PyStr "12abc" ]} = Raise ValueError
  ∧ stock_of {[ "Количество" := PyStr "7 шт" ]} = Raise ValueError.
Proof.
  assert (Hstring : ∀ s, s ≠ ">10" → s ≠ "1" →
    (∀ z, stock_of {[ "Количество" := PyStr s ]} = Ret z
          ↔ int_literal (transform_decimal_and_space_to_ascii s) z)
    ∧ ((¬ ∃ z, int_literal (transform_decimal_and_space_to_ascii s) z) →
       stock_of {[ "Количество" := PyStr s ]} = Raise ValueError)).
  { intros s H10 H1.
    destruct (stock_of_buckets {[ "Количество" := PyStr s ]}) as (_ & _ & Hs & _).
    destruct (Hs s eq_refl H10 H1) as (Hiff & Hnone & _). by split. }
  split; [|split; [|split; [|split; [|split; [|split; [|split]]]]]].
  - apply (stock_of_buckets {[ "Количество" := PyStr ">10" ]}). reflexivity.
  - apply (stock_of_buckets {[ "Количество" := PyInt 1 ]}). reflexivity.
  - destruct (stock_of_buckets {[ "Количество" := PyInt 12 ]})
      as (_ & _ & _ & Hnumber & _).
    apply (Hnumber 12); [reflexivity|]. vm_compute. lia.
  - apply (Hstring "7"); [discriminate..|].
    exists "", "", "7", "7", "". repeat split; [by left|by apply groups_last|].
    vm_compute. lia.
  - apply (Hstring " -1_000 "); [discriminate..|].
    exists " ", "-", "1_000", "1000", " ".
    repeat split; [by right; right| |vm_compute; lia].
    apply (groups_more "1" "000" "000"); [done..|]. by apply groups_last.
  - apply (Hstring "٣"); [discriminate..|].
    exists "", "", "3", "3", "". repeat split; [by left|by apply groups_last|].
    vm_compute. lia.
  - apply (Hstring "12abc"); [discriminate..|].
    intros [z Hz]. apply (Hstring "12abc") in Hz; [|discriminate..].
    vm_compute in Hz. discriminate.
  - apply (Hstring "7 шт"); [discriminate..|].
    intros [z Hz]. apply (Hstring "7 шт") in Hz; [|discriminate..].
    vm_compute in Hz. discriminate.
Defined.

(** ** The stock reconciler *)

Lemma py_in_true (x : string) (l : list string) : py_in x l = true ↔ x ∈ l.
Proof. unfold py_in. by rewrite bool_decide_eq_true. Qed.

Lemma py_in_false (x : string) (l : list string) : py_in x l = false ↔ x ∉ l.
Proof. unfold py_in. by rewrite bool_decide_eq_false. Qed.

Lemma remove_first_elem (x : string) (l : list string) :
  x ∈ l → ∃ l', remove_first x l = Some l'.
Proof.
  induction l as [|y l IH]; simpl; [by intros ?%elem_of_nil|].
  intros Hx. case_decide as Hy; [by eexists|].
  apply elem_of_cons in Hx as [->|Hx]; [done|].
  destruct (IH Hx) as [l' ->]. by eexists.
Qed.

Lemma remove_first_perm (x : string) (l l' : list string) :
  remove_first x l = Some l' → l ≡ₚ x :: l'.
Proof.
  revert l'. induction l as [|y l IH]; intros l'; simpl; [done|].
  case_decide as Hy; [by intros [= <-]; subst|].
  destruct (remove_first x l) as [l0|]; [|done]. simpl. intros [= <-].
  rewrite (IH l0 eq_refl). apply Permutation_swap.
Qed.

Lemma remove_first_subseteq (x : string) (l l' : list string) :
  remove_first x l = Some l' → l' ⊆ l.
Proof.
  intros Hrm%remove_first_perm y Hy. rewrite Hrm. by apply elem_of_cons; right.
Qed.

Lemma remove_first_NoDup (x : string) (l l' : list string) :
  NoDup l → remove_first x l = Some l' → NoDup l' ∧ x ∉ l'.
Proof.
  intros Hnd Hrm%remove_first_perm. rewrite Hrm in Hnd.
  by apply NoDup_cons in Hnd as [? ?].
Qed.


(** The ids the first loop leaves are ids it was given, whatever its end. *)
Lemma match_rows_left_subseteq rem ids :
  snd (match_rows rem ids) ⊆ ids.
Proof.
  revert ids. induction rem as [|watch rest IH]; intros ids; simpl; [done|].
  destruct (py_in (code_of watch) ids); [|apply IH].
  destruct (stock_of watch) as [stock|e|]; [|done..].
  destruct (remove_first (code_of watch) ids) as [ids'|] eqn:Hrm; [|done].
  specialize (IH ids'). destruct (match_rows rest ids') as [o left]. simpl in *.
  etrans; [apply IH|]. by eapply remove_first_subseteq.
Qed.

(** One step of the first loop, when it ends well. *)
Lemma match_rows_cons_Ret watch rest ids matched left :
  match_rows (watch :: rest) ids = (Ret matched, left) →
  ((code_of watch ∉ ids) ∧ match_rows rest ids = (Ret matched, left))
  ∨ (∃ stock ids' matched',
        code_of watch ∈ ids
        ∧ stock_of watch = Ret stock
        ∧ remove_first (code_of watch) ids = Some ids'
        ∧ match_rows rest ids' = (Ret matched', left)
        ∧ matched = (code_of watch, stock) :: matched').
Proof.
  simpl. destruct (py_in (code_of watch) ids) eqn:Hin.
  - apply py_in_true in Hin.
    destruct (stock_of watch) as [stock|e|]; [|done..].
    destruct (remove_first (code_of watch) ids) as [ids'|] eqn:Hrm; [|done].
    destruct (match_rows rest ids') as [[matched'|e|] left'] eqn:Hrest;
      simpl; [|done..].
    intros [= <- <-]. right. by exists stock, ids', matched'.
  - apply py_in_false in Hin. intros Hrest. by left.
Qed.

Lemma match_rows_total rem ids :
  (∀ watch, watch ∈ rem → code_of watch ∈ ids → ∃ stock, stock_of watch = Ret stock) →
  ∃ matched left, match_rows rem ids = (Ret matched, left).
Proof.
  revert ids. induction rem as [|watch rest IH]; intros ids Hok; simpl.
  - by eexists _, _.
  - destruct (py_in (code_of watch) ids) eqn:Hin.
    + apply py_in_true in Hin.
      destruct (Hok watch) as [stock ->]; [by left|done|].
      destruct (remove_first_elem _ _ Hin) as [ids' Hrm]. rewrite Hrm.
      destruct (IH ids') as (matched & left & ->).
      { intros w Hw Hcode. apply Hok; [by right|].
        by eapply remove_first_subseteq. }
      by eexists _, _.
    + apply IH. intros w Hw. apply Hok. by right.
Qed.

Lemma match_rows_perm rem ids matched left :
  match_rows rem ids = (Ret matched, left) → matched.*1 ++ left ≡ₚ ids.
Proof.
  revert ids matched. induction rem as [|watch rest IH]; intros ids matched.
  - by intros [= <- <-].
  - intros [[_ Hrest]|(stock & ids' & matched' & _ & _ & Hrm & Hrest & ->)]
      %match_rows_cons_Ret.
    + by apply IH.
    + simpl. rewrite (IH _ _ Hrest). symmetry. by apply remove_first_perm.
Qed.




(** With distinct offer ids, no row has its code among the ids left. *)
Lemma match_rows_left_unmatched rem ids matched left :
  NoDup ids → match_rows rem ids = (Ret matched, left) →
  ∀ watch, watch ∈ rem → code_of watch ∉ left.
Proof.
  revert ids matched. induction rem as [|w rest IH]; intros ids matched Hnd Hrows.
  - by intros watch ?%elem_of_nil.
  - assert (left ⊆ ids) as Hsub.
    { pose proof (match_rows_left_subseteq (w :: rest) ids) as Hs.
      by rewrite Hrows in Hs. }
    apply match_rows_cons_Ret in Hrows
      as [[Hnot Hrest]|(stock & ids' & matched' & Hin & Hstock & Hrm & Hrest & ->)].
    + intros watch [->|Hw]%elem_of_cons; [auto|]. by eapply IH.
    + destruct (remove_first_NoDup _ _ _ Hnd Hrm) as [Hnd' Hgone].
      intros watch [->|Hw]%elem_of_cons; [|by eapply IH].
      intros Hleft. apply Hgone.
      pose proof (match_rows_left_subseteq rest ids') as Hs.
      rewrite Hrest in Hs. by apply Hs.
Qed.

(** *** The rows that are matched *)

Lemma occurrences_cons (x y : string) (l : list string) :
  occurrences x (y :: l)
  = ((if decide (y = x) then 1 else 0) + occurrences x l)%nat.
Proof. unfold occurrences. rewrite filter_cons. by case_decide. Qed.

Lemma occurrences_perm (x : string) (l l' : list string) :
  l ≡ₚ l' → occurrences x l = occurrences x l'.
Proof. unfold occurrences. by intros ->. Qed.

Lemma occurrences_pos (x : string) (l : list string) :
  (0 < occurrences x l)%nat ↔ x ∈ l.
Proof.
  induction l as [|y l IH]; [by split; [intros ?%Nat.lt_irrefl|intros ?%elem_of_nil]|].
  rewrite occurrences_cons, elem_of_cons. case_decide; [subst|]; [split; [by left|lia]|].
  rewrite <- IH. split; [by right|]. intros [?|?]; [by subst|done].
Qed.

Lemma occurrences_remove_first (x y : string) (l l' : list string) :
  remove_first x l = Some l' →
  occurrences y l = ((if decide (x = y) then 1 else 0) + occurrences y l')%nat.
Proof.
  intros Hrm%remove_first_perm.
  by rewrite (occurrences_perm _ _ _ Hrm), occurrences_cons.
Qed.

(** The first row is matched when its code is an offer id. *)
Lemma matched_at_first watch rest ids w :
  matched_at (watch :: rest) ids 0 w ↔ w = watch ∧ code_of watch ∈ ids.
Proof.
  unfold matched_at. simpl. rewrite <- occurrences_pos. split.
  - intros [[= <-] ?]. done.
  - intros [-> ?]. done.
Qed.

(** A later row, when the first row took no entry of the list. *)
Lemma matched_at_skip watch rest ids i w :
  code_of watch ∉ ids →
  matched_at (watch :: rest) ids (S i) w ↔ matched_at rest ids i w.
Proof.
  intros Hnot. unfold matched_at. simpl. rewrite occurrences_cons.
  apply and_iff_compat_l. case_decide as Hcode; [|done].
  assert (occurrences (code_of watch) ids = 0)%nat as Hzero.
  { destruct (occurrences (code_of watch) ids) eqn:Hocc; [done|].
    destruct Hnot. apply occurrences_pos. lia. }
  rewrite Hcode in Hzero. rewrite Hzero. lia.
Qed.

(** A later row, when the first row took one entry of the list. *)
Lemma matched_at_taken watch rest ids ids' i w :
  remove_first (code_of watch) ids = Some ids' →
  matched_at (watch :: rest) ids (S i) w ↔ matched_at rest ids' i w.
Proof.
  intros Hrm. unfold matched_at. simpl. rewrite occurrences_cons.
  apply and_iff_compat_l.
  rewrite (occurrences_remove_first _ (code_of w) _ _ Hrm). case_decide; lia.
Qed.

Lemma remove_first_sublist (x : string) (l l' : list string) :
  remove_first x l = Some l' → l' `sublist_of` l.
Proof.
  revert l'. induction l as [|y l IH]; intros l'; simpl; [done|].
  case_decide as Hy; [intros [= <-]; by apply sublist_cons|].
  destruct (remove_first x l) as [l0|]; [|done]. simpl. intros [= <-].
  apply sublist_skip. by apply IH.
Qed.

Lemma match_rows_left_sublist rem ids :
  snd (match_rows rem ids) `sublist_of` ids.
Proof.
  revert ids. induction rem as [|watch rest IH]; intros ids; simpl; [done|].
  destruct (py_in (code_of watch) ids); [|apply IH].
  destruct (stock_of watch) as [stock|e|]; [|done..].
  destruct (remove_first (code_of watch) ids) as [ids'|] eqn:Hrm; [|done].
  specialize (IH ids'). destruct (match_rows rest ids') as [o left]. simpl in *.
  etrans; [apply IH|]. by eapply remove_first_sublist.
Qed.

Lemma remove_first_none (x : string) (l : list string) :
  x ∉ l → remove_first x l = None.
Proof.
  induction l as [|y l IH]; simpl; [done|].
  intros [Hne Hl]%not_elem_of_cons. rewrite decide_False by done.
  by rewrite IH.
Qed.

(** How the first loop runs: it goes through [n] rows; the matched rows
    among them have a quantity the bucketing accepts; either these are all
    the rows and the loop ends well, or row [n] is matched, its quantity is
    refused, and the loop ends as the bucketing of that row does.  The list
    is left with one entry less for each of the [n] rows whose code it
    held. *)
Lemma match_rows_run rem ids :
  ∃ n,
    (n ≤ length rem)%nat
    ∧ (∀ j w, (j < n)%nat → matched_at rem ids j w → ∃ stock, stock_of w = Ret stock)
    ∧ ((n = length rem ∧ ∃ matched, (match_rows rem ids).1 = Ret matched)
       ∨ (∃ w, matched_at rem ids n w
             ∧ (¬ ∃ stock, stock_of w = Ret stock)
             ∧ (¬ ∃ matched, (match_rows rem ids).1 = Ret matched)
             ∧ (∀ e, stock_of w = Raise e → (match_rows rem ids).1 = Raise e)))
    ∧ (match_rows rem ids).2 `sublist_of` ids
    ∧ (∀ c, occurrences c (match_rows rem ids).2
            = (occurrences c ids - occurrences c (map code_of (take n rem)))%nat)
    ∧ (match_rows rem ids).2 = consumed (map code_of (take n rem)) ids.
Proof.
  revert ids. induction rem as [|watch rest IH]; intros ids.
  - exists 0%nat. simpl. split; [done|]. split; [lia|].
    split; [left; by eauto|]. split; [done|]. split; [|done].
    intros c. unfold occurrences at 3. simpl. lia.
  - simpl match_rows. destruct (py_in (code_of watch) ids) eqn:Hin.
    + apply py_in_true in Hin.
      destruct (stock_of watch) as [stock|e|] eqn:Hstock.
      * destruct (remove_first_elem _ _ Hin) as [ids' Hrm]. rewrite Hrm.
        destruct (IH ids') as (n & Hn & Hbefore & Hend & Hsub & Hocc & Hleft).
        destruct (match_rows rest ids') as [o left]. simpl in *.
        exists (S n). split; [lia|]. split; [|split; [|split; [|split]]].
        -- intros [|j] w Hj.
           ++ intros [-> _]%matched_at_first. by eexists.
           ++ rewrite (matched_at_taken _ _ _ _ _ _ Hrm). apply Hbefore. lia.
        -- destruct Hend as [[-> [matched ->]]|(w & Hw & Hbad & Hno & Hraise)].
           ++ left. split; [done|]. by eexists.
           ++ right. exists w. rewrite (matched_at_taken _ _ _ _ _ _ Hrm).
              split; [done|]. split; [done|]. split.
              ** intros [matched Hm]. apply Hno.
                 destruct o; simpl in Hm; [by eexists|done..].
              ** intros e He. by rewrite (Hraise e He).
        -- etrans; [done|]. by eapply remove_first_sublist.
        -- intros c.
           change (map code_of (take (S n) (watch :: rest)))
             with (code_of watch :: map code_of (take n rest)).
           rewrite Hocc, occurrences_cons.
           rewrite (occurrences_remove_first _ c _ _ Hrm). case_decide; lia.
        -- change (map code_of (take (S n) (watch :: rest)))
             with (code_of watch :: map code_of (take n rest)).
           unfold consumed. simpl foldl. by rewrite Hrm.
      * exists 0%nat. simpl. split; [lia|]. split; [lia|].
        split; [|split; [done|split; [|done]]].
        -- right. exists watch. split; [by apply matched_at_first|].
           split; [intros [? ?]; congruence|]. split; [by intros [? ?]|].
           intros e' He'. congruence.
        -- intros c. unfold occurrences at 3. simpl. lia.
      * exists 0%nat. simpl. split; [lia|]. split; [lia|].
        split; [|split; [done|split; [|done]]].
        -- right. exists watch. split; [by apply matched_at_first|].
           split; [intros [? ?]; congruence|]. split; [by intros [? ?]|].
           intros e' He'. congruence.
        -- intros c. unfold occurrences at 3. simpl. lia.
    + apply py_in_false in Hin.
      destruct (IH ids) as (n & Hn & Hbefore & Hend & Hsub & Hocc & Hleft).
      exists (S n). simpl. split; [lia|]. split; [|split; [|split; [done|split]]].
      * intros [|j] w Hj.
        -- by intros [_ ?]%matched_at_first.
        -- rewrite (matched_at_skip _ _ _ _ _ Hin). apply Hbefore. lia.
      * destruct Hend as [[-> Hret]|(w & Hw & Hbad & Hno & Hraise)]; [by left|].
        right. exists w. by rewrite (matched_at_skip _ _ _ _ _ Hin).
      * intros c.
        change (map code_of (take (S n) (watch :: rest)))
          with (code_of watch :: map code_of (take n rest)).
        rewrite Hocc, occurrences_cons. case_decide as Hc; [|done].
        subst c.
        assert (occurrences (code_of watch) ids = 0)%nat as ->; [|lia].
        destruct (occurrences (code_of watch) ids) eqn:Hzero; [done|].
        destruct Hin. apply occurrences_pos. lia.
      * change (map code_of (take (S n) (watch :: rest)))
          with (code_of watch :: map code_of (take n rest)).
        unfold consumed. simpl foldl. by rewrite (remove_first_none _ _ Hin).
Qed.




(** ** The loops of the two files compute these functions *)

Lemma set_list_same st r l : heap st !! r = Some l → set_list st r l = st.
Proof. intros Hl. destruct st as [h lg]. unfold set_list. simpl in *. by rewrite insert_id. Qed.

Lemma set_list_twice st r l1 l2 : set_list (set_list st r l1) r l2 = set_list st r l2.
Proof. unfold set_list. simpl. by rewrite insert_insert_eq. Qed.

Lemma set_list_lookup st r l : heap (set_list st r l) !! r = Some l.
Proof. unfold set_list. simpl. by rewrite lookup_insert_eq. Qed.

Lemma read_lookup st r l : heap st !! r = Some l → heap st !!! r = l.
Proof. intros Hl. by rewrite lookup_total_alt, Hl. Qed.

Lemma seller_create_stocks_loop_rows rem r ids stocks st :
  heap st !! r = Some ids →
  seller.create_stocks_loop rem r stocks st
  = (outcome_map (λ matched, stocks ++ map (λ m, SellerStock.mk m.1 m.2) matched)
       (match_rows rem ids).1,
     set_list st r (match_rows rem ids).2).
Proof.
  revert ids stocks st. induction rem as [|watch rest IH]; intros ids stocks st Hr.
  - simpl. run. by rewrite app_nil_r, set_list_same.
  - simpl. run. rewrite (read_lookup _ _ _ Hr). fold (code_of watch).
    destruct (py_in (code_of watch) ids); [|by apply IH].
    destruct (stock_of watch) as [stock|e|]; simpl;
      [|by rewrite set_list_same..].
    run. rewrite (read_lookup _ _ _ Hr).
    destruct (remove_first (code_of watch) ids) as [ids'|]; simpl;
      [|by rewrite set_list_same].
    fold (set_list st r ids').
    rewrite (IH ids') by apply set_list_lookup. rewrite set_list_twice.
    destruct (match_rows rest ids') as [[matched|e|] left]; simpl; [|done..].
    by rewrite <- app_assoc.
Qed.

Lemma market_create_stocks_loop_rows rem r warehouse_id date ids stocks st :
  heap st !! r = Some ids →
  market.create_stocks_loop rem r warehouse_id date stocks st
  = (outcome_map
       (λ matched,
          stocks ++ map (λ m, market.stock_record m.1 warehouse_id m.2 date) matched)
       (match_rows rem ids).1,
     set_list st r (match_rows rem ids).2).
Proof.
  revert ids stocks st. induction rem as [|watch rest IH]; intros ids stocks st Hr.
  - simpl. run. by rewrite app_nil_r, set_list_same.
  - simpl. run. rewrite (read_lookup _ _ _ Hr). fold (code_of watch).
    destruct (py_in (code_of watch) ids); [|by apply IH].
    destruct (stock_of watch) as [stock|e|]; simpl;
      [|by rewrite set_list_same..].
    run. rewrite (read_lookup _ _ _ Hr).
    destruct (remove_first (code_of watch) ids) as [ids'|]; simpl;
      [|by rewrite set_list_same].
    fold (set_list st r ids').
    rewrite (IH ids') by apply set_list_lookup. rewrite set_list_twice.
    destruct (match_rows rest ids') as [[matched|e|] left]; simpl; [|done..].
    by rewrite <- app_assoc.
Qed.

Lemma seller_create_stocks_rows rem r ids st :
  heap st !! r = Some ids →
  seller.create_stocks rem r st
  = (outcome_map
       (λ matched,
          map (λ m, SellerStock.mk m.1 m.2) matched
          ++ map (λ offer_id, SellerStock.mk offer_id 0) (match_rows rem ids).2)
       (match_rows rem ids).1,
     set_list st r (match_rows rem ids).2).
Proof.
  intros Hr. unfold seller.create_stocks. run.
  rewrite (seller_create_stocks_loop_rows _ _ ids) by done.
  destruct (match_rows rem ids) as [[matched|e|] left]; simpl; [|done..].
  by rewrite lookup_total_insert_eq.
Qed.

Lemma market_create_stocks_rows w rem r warehouse_id ids st :
  heap st !! r = Some ids →
  market.create_stocks w rem r warehouse_id st
  = (outcome_map
       (λ matched,
          map (λ m, market.stock_record m.1 warehouse_id m.2 (utcnow w (log st)))
            matched
          ++ map (λ offer_id,
                    market.stock_record offer_id warehouse_id 0 (utcnow w (log st)))
               (match_rows rem ids).2)
       (match_rows rem ids).1,
     set_list (clock_read st) r (match_rows rem ids).2).
Proof.
  intros Hr. unfold market.create_stocks, market.utcnow_isoformat_Z, request. run.
  fold (clock_read st).
  rewrite (market_create_stocks_loop_rows _ _ _ _ ids) by done.
  destruct (match_rows rem ids) as [[matched|e|] left]; simpl; [|done..].
  by rewrite lookup_total_insert_eq.
Qed.

Lemma seller_create_prices_loop_rows rem r prices st :
  seller.create_prices_loop rem r prices st
  = (outcome_map (app prices) (seller_price_rows rem (heap st !!! r)), st).
Proof.
  revert prices. induction rem as [|watch rest IH]; intros prices; simpl.
  - run. by rewrite app_nil_r.
  - run. fold (code_of watch).
    destruct (py_in (code_of watch) (heap st !!! r)); [|by apply IH].
    destruct (price_conversion (py_get watch "Цена")) as [converted|e|]; simpl;
      [|done..].
    rewrite IH.
    destruct (seller_price_rows rest (heap st !!! r)) as [rows|e|]; simpl; [|done..].
    by rewrite <- app_assoc.
Qed.

Lemma market_create_prices_loop_rows rem r prices st :
  market.create_prices_loop rem r prices st
  = (outcome_map (app prices) (market_price_rows rem (heap st !!! r)), st).
Proof.
  revert prices. induction rem as [|watch rest IH]; intros prices; simpl.
  - run. by rewrite app_nil_r.
  - run. fold (code_of watch).
    destruct (py_in (code_of watch) (heap st !!! r)); [|by apply IH].
    destruct (price_conversion (py_get watch "Цена")) as [converted|e|]; simpl;
      [|done..].
    destruct (py_int_str converted) as [value|e|]; simpl; [|done..].
    rewrite IH.
    destruct (market_price_rows rest (heap st !!! r)) as [rows|e|]; simpl; [|done..].
    by rewrite <- app_assoc.
Qed.

Lemma seller_create_prices_rows rem r st :
  seller.create_prices rem r st = (seller_price_rows rem (heap st !!! r), st).
Proof.
  unfold seller.create_prices. rewrite seller_create_prices_loop_rows.
  by destruct (seller_price_rows rem (heap st !!! r)).
Qed.

Lemma market_create_prices_rows rem r st :
  market.create_prices rem r st = (market_price_rows rem (heap st !!! r), st).
Proof.
  unfold market.create_prices. rewrite market_create_prices_loop_rows.
  by destruct (market_price_rows rem (heap st !!! r)).
Qed.

(** ** The stock records of one run *)

(** The example of the specification: offers A, B and C, rows for A and B. *)
Example create_stocks_ABC :
  seller.create_stocks remnants_AB 1%positive (state_with ["A"; "B"; "C"])
  = (Ret [SellerStock.mk "A" 5; SellerStock.mk "B" 100; SellerStock.mk "C" 0],
     state_with ["C"]).
Proof. vm_compute. reflexivity. Qed.





(** ** The price reconcilers leave the offer ids alone *)

(** C9.  [create_prices] of either file ends in the state it started in,
    whatever the rows and however it ends: the offer-id list is read, never
    written. *)
Theorem create_prices_reads_only
    (rem : list (gmap string pyval)) (r : loc) (st : state) :
  (seller.create_prices rem r st).2 = st
  ∧ (market.create_prices rem r st).2 = st
  ∧ heap (seller.create_prices rem r st).2 !!! r = heap st !!! r
  ∧ heap (market.create_prices rem r st).2 !!! r = heap st !!! r.
Proof.
  by rewrite seller_create_prices_rows, market_create_prices_rows.
Qed.

(** ** Running the reconcilers again *)

(** C8, as the code has it.  The outcome of each reconciler depends on the
    rows and on the content of the offer-id list only, not on where the list
    lives nor on what happened before, except the time stamp of the stock
    records of market.py: two runs on equal inputs give equal records once
    the stamps are put aside, and equal records when the clock reads the
    same. *)
Theorem reconcilers_repeatable
    (w1 w2 : world) (rem : list (gmap string pyval)) (r1 r2 : loc)
    (ids : list string) (warehouse_id : string) (st1 st2 : state) :
  heap st1 !! r1 = Some ids → heap st2 !! r2 = Some ids →
  (seller.create_stocks rem r1 st1).1 = (seller.create_stocks rem r2 st2).1
  ∧ (seller.create_prices rem r1 st1).1 = (seller.create_prices rem r2 st2).1
  ∧ (market.create_prices rem r1 st1).1 = (market.create_prices rem r2 st2).1
  ∧ outcome_map (map without_date) (market.create_stocks w1 rem r1 warehouse_id st1).1
    = outcome_map (map without_date) (market.create_stocks w2 rem r2 warehouse_id st2).1
  ∧ (utcnow w1 (log st1) = utcnow w2 (log st2) →
     (market.create_stocks w1 rem r1 warehouse_id st1).1
     = (market.create_stocks w2 rem r2 warehouse_id st2).1).
Proof.
  intros H1 H2.
  rewrite !(seller_create_stocks_rows _ _ ids), !(market_create_stocks_rows _ _ _ _ ids),
    !seller_create_prices_rows, !market_create_prices_rows by done.
  rewrite (read_lookup _ _ _ H1), (read_lookup _ _ _ H2). simpl.
  repeat split.
  - destruct (match_rows rem ids) as [[matched|e|] left]; simpl; [|done..].
    f_equal. rewrite !map_app, !map_map. done.
  - intros ->. done.
Qed.

Lemma reconcilers_repeatable_witness :
  let w := world_of ["A"; "B"; "C"] remnants_AB in
  let st1 := state_with ["A"; "B"; "C"] in
  let st2 := clock_read (state_with ["A"; "B"; "C"]) in
  (seller.create_stocks remnants_AB 1%positive st1).1
  = (seller.create_stocks remnants_AB 1%positive st2).1
  ∧ outcome_map (map without_date)
      (market.create_stocks w remnants_AB 1%positive "warehouse" st1).1
    = outcome_map (map without_date)
      (market.create_stocks w remnants_AB 1%positive "warehouse" st2).1.
Proof.
  intros w st1 st2.
  destruct (reconcilers_repeatable w w remnants_AB 1%positive 1%positive
              ["A"; "B"; "C"] "warehouse" st1 st2)
    as (Hstocks & _ & _ & Hmarket & _); [reflexivity|reflexivity|].
  split; [exact Hstocks|exact Hmarket].
Defined.

(** C8 as the claim words it fails: a second run of [create_stocks] of
    market.py on equal inputs, one reading of the clock later, gives records
    that are no rearrangement of those of the first. *)
Lemma market_create_stocks_rerun_differs :
  let w := world_of ["A"] [] in
  let st1 := state_with ["A"] in
  let st2 := clock_read (state_with ["A"]) in
  heap st1 !! 1%positive = heap st2 !! 1%positive
  ∧ ∃ records1 records2,
      (market.create_stocks w [] 1%positive "warehouse" st1).1 = Ret records1
      ∧ (market.create_stocks w [] 1%positive "warehouse" st2).1 = Ret records2
      ∧ ¬ records1 ≡ₚ records2.
Proof.
  split; [reflexivity|].
  eexists _, _. split; [by vm_compute|]. split; [by vm_compute|].
  intros Hperm%Permutation_singleton_l. discriminate.
Qed.

(** ** Prices without a digit *)

Lemma price_conversion_cases (price : pyval) :
  (∃ converted, price_conversion price = Ret converted)
  ∨ price_conversion price = Raise AttributeError.
Proof.
  destruct price as [|z|p|text whole]; [by right| by right| |by right]. left.
  rewrite price_conversion_str. by eexists.
Qed.

Lemma seller_price_rows_strings rem ids :
  (∀ watch, watch ∈ rem → code_of watch ∈ ids →
     ∃ p, py_get watch "Цена" = PyStr p) →
  ∃ prices, seller_price_rows rem ids = Ret prices
    ∧ ∀ watch p, watch ∈ rem → code_of watch ∈ ids → py_get watch "Цена" = PyStr p →
        SellerPrice.mk "UNKNOWN" "RUB" (code_of watch) "0"
          (re_sub_non_digits (before_first_dot p)) ∈ prices.
Proof.
  induction rem as [|w rest IH]; intros Hstr; simpl.
  - eexists. split; [done|]. by intros watch p ?%elem_of_nil.
  - destruct IH as (prices & Hrest & Hin).
    { intros watch Hw. apply Hstr. by right. }
    destruct (py_in (code_of w) ids) eqn:Hcode.
    + apply py_in_true in Hcode.
      destruct (Hstr w) as [p0 Hp0]; [by left|done|].
      rewrite Hp0, price_conversion_str, Hrest. simpl.
      eexists. split; [done|].
      intros watch p [->|Hw]%elem_of_cons Hc Hp.
      * rewrite Hp0 in Hp. injection Hp as <-. by left.
      * right. by apply Hin.
    + apply py_in_false in Hcode. exists prices. split; [done|].
      intros watch p [->|Hw]%elem_of_cons Hc Hp; [done|by apply Hin].
Qed.

Lemma market_price_rows_no_digit rem ids watch p :
  watch ∈ rem → code_of watch ∈ ids → py_get watch "Цена" = PyStr p →
  no_digit (before_first_dot p) →
  ∃ e, market_price_rows rem ids = Raise e
    ∧ ((∀ other, other ∈ rem → code_of other ∈ ids →
          ∃ q, py_get other "Цена" = PyStr q) → e = ValueError).
Proof.
  intros Hw Hcode Hp Hnone. induction rem as [|w rest IH]; simpl.
  - by apply elem_of_nil in Hw.
  - destruct (py_in (code_of w) ids) eqn:Hin.
    + apply py_in_true in Hin.
      destruct (price_conversion_cases (py_get w "Цена")) as [[converted Hconv]|Hconv];
        rewrite Hconv; simpl.
      * destruct (py_int_str_cases converted) as [[value Hvalue]|Hvalue];
          rewrite Hvalue; simpl; [|by eexists].
        apply elem_of_cons in Hw as [->|Hw].
        { rewrite Hp, price_conversion_str, re_sub_no_digit in Hconv by done.
          injection Hconv as <-. done. }
        destruct (IH Hw) as (e & -> & He). exists e. split; [done|].
        intros Hstr. apply He. intros other Ho. apply Hstr. by right.
      * eexists. split; [done|]. intros Hstr.
        destruct (Hstr w) as [q Hq]; [by left|done|].
        by rewrite Hq, price_conversion_str in Hconv.
    + apply py_in_false in Hin.
      apply elem_of_cons in Hw as [->|Hw]; [done|].
      destruct (IH Hw) as (e & -> & He). exists e. split; [done|].
      intros Hstr. apply He. intros other Ho. apply Hstr. by right.
Qed.

(** C10.  Take a row of a known offer whose price string has no digit
    before its first ["."].  [create_prices] of market.py raises, and what
    it raises is [ValueError] when the price of every matched row is a
    string; under that same condition [create_prices] of seller.py returns,
    with a record for the row whose price is the empty string. *)
Theorem create_prices_without_digits
    (rem : list (gmap string pyval)) (r : loc) (st : state)
    (watch : gmap string pyval) (p : string) :
  watch ∈ rem → code_of watch ∈ heap st !!! r →
  py_get watch "Цена" = PyStr p → no_digit (before_first_dot p) →
  (∃ e, market.create_prices rem r st = (Raise e, st)
     ∧ ((∀ other, other ∈ rem → code_of other ∈ heap st !!! r →
           ∃ q, py_get other "Цена" = PyStr q) → e = ValueError))
  ∧ ((∀ other, other ∈ rem → code_of other ∈ heap st !!! r →
        ∃ q, py_get other "Цена" = PyStr q) →
     ∃ prices, seller.create_prices rem r st = (Ret prices, st)
       ∧ SellerPrice.mk "UNKNOWN" "RUB" (code_of watch) "0" "" ∈ prices).
Proof.
  intros Hw Hcode Hp Hnone.
  rewrite market_create_prices_rows, seller_create_prices_rows. split.
  - destruct (market_price_rows_no_digit rem _ watch p Hw Hcode Hp Hnone)
      as (e & -> & He).
    by exists e.
  - intros Hstr.
    destruct (seller_price_rows_strings rem _ Hstr) as (prices & -> & Hin).
    exists prices. split; [done|].
    specialize (Hin watch p Hw Hcode Hp). by rewrite re_sub_no_digit in Hin.
Qed.

Lemma create_prices_without_digits_witness :
  let rem := [row (PyStr "A") (PyInt 5) (PyStr "по запросу")] in
  let st := state_with ["A"] in
  market.create_prices rem 1%positive st = (Raise ValueError, st)
  ∧ seller.create_prices rem 1%positive st
    = (Ret [SellerPrice.mk "UNKNOWN" "RUB" "A" "0" ""], st).
Proof.
  intros rem st.
  assert (Hstr : ∀ other, other ∈ rem → code_of other ∈ heap st !!! 1%positive →
            ∃ q, py_get other "Цена" = PyStr q).
  { intros other Ho _. apply elem_of_cons in Ho as [->|Ho]; [by eexists|].
    by apply elem_of_nil in Ho. }
  destruct (create_prices_without_digits rem 1%positive st
              (row (PyStr "A") (PyInt 5) (PyStr "по запросу")) "по запросу")
    as [(e & Hmarket & He) Hseller].
  - by left.
  - vm_compute. by left.
  - reflexivity.
  - reflexivity.
  - split.
    + rewrite Hmarket. by rewrite (He Hstr).
    + reflexivity.
Defined.

(** ** The driver of seller.py computes prices from the consumed list *)

Lemma seller_price_rows_unmatched rem ids :
  (∀ watch, watch ∈ rem → code_of watch ∉ ids) → seller_price_rows rem ids = Ret [].
Proof.
  induction rem as [|w rest IH]; intros Hnone; simpl; [done|].
  assert (py_in (code_of w) ids = false) as ->.
  { apply py_in_false, Hnone. by left. }
  apply IH. intros watch Hw. apply Hnone. by right.
Qed.

(** C2, what the code does.  [main] of seller.py hands [create_prices] the
    list object [create_stocks] has just consumed: with distinct offer ids,
    once [create_stocks] has returned, [create_prices] on the same object
    returns no record at all, whatever the rows are. *)
Theorem seller_prices_after_stocks_empty
    (rem : list (gmap string pyval)) (r : loc) (ids : list string)
    (st st' : state) (stocks : list SellerStock.t) :
  heap st !! r = Some ids → NoDup ids →
  seller.create_stocks rem r st = (Ret stocks, st') →
  seller.create_prices rem r st' = (Ret [], st').
Proof.
  intros Hr Hnd. rewrite (seller_create_stocks_rows _ _ ids) by done.
  destruct (match_rows rem ids) as [[matched|e|] left] eqn:Hrows; simpl; [|done..].
  intros [= _ <-]. rewrite seller_create_prices_rows.
  unfold set_list. simpl. rewrite lookup_total_insert_eq.
  rewrite seller_price_rows_unmatched; [done|].
  by eapply match_rows_left_unmatched.
Qed.

Lemma seller_prices_after_stocks_empty_witness :
  seller.create_prices remnants_AB 1%positive (state_with ["C"])
  = (Ret [], state_with ["C"]).
Proof.
  apply (seller_prices_after_stocks_empty remnants_AB 1%positive ["A"; "B"; "C"]
           (state_with ["A"; "B"; "C"]) (state_with ["C"])
           [SellerStock.mk "A" 5; SellerStock.mk "B" 100; SellerStock.mk "C" 0]).
  - reflexivity.
  - apply (bool_decide_unpack (NoDup ["A"; "B"; "C"])). by vm_compute.
  - by vm_compute.
Defined.

(** The same rows and offers through the two paths of seller.py: the body
    of [upload_prices], which asks for the offer ids again, sends the prices
    of A and B; [main], which reuses the list, sends none. *)
Example seller_main_sends_no_price :
  let w := world_of ["A"; "B"; "C"] remnants_AB in
  filter (λ e, is_price_update e = true) (log (seller.main w 1 state_empty).2) = []
  ∧ (seller.main w 1 state_empty).1 = Ret ()
  ∧ filter (λ e, is_price_update e = true)
      (log ((seller.upload_prices w 1 remnants_AB "client" "token" ≫= await)
              state_empty).2)
    = [EvSellerUpdatePrice
         [SellerPrice.mk "UNKNOWN" "RUB" "A" "0" "1000";
          SellerPrice.mk "UNKNOWN" "RUB" "B" "0" "500"] "client" "token"].
Proof. by vm_compute. Qed.

(** ** What a run writes to the log *)

Section emits_rules.
Context (P : event → Prop).

Lemma emits_silent {A} (m : M A) : (∀ st, log (m st).2 = log st) → emits P m.
Proof. intros Hm st. exists []. by rewrite Hm, app_nil_r. Qed.

Lemma emits_ret {A} (a : A) : emits P (mret a).
Proof. by apply emits_silent. Qed.

Lemma emits_lift {A} (o : outcome A) : emits P (lift o).
Proof. by apply emits_silent. Qed.

Lemma emits_raise {A} (e : exn) : emits P (raise e : M A).
Proof. by apply emits_silent. Qed.

Lemma emits_diverge {A} : emits P (diverge : M A).
Proof. by apply emits_silent. Qed.

Lemma emits_read (r : loc) : emits P (read r).
Proof. by apply emits_silent. Qed.

Lemma emits_write (r : loc) (l : list string) : emits P (write r l).
Proof. by apply emits_silent. Qed.

Lemma emits_alloc (l : list string) : emits P (alloc l).
Proof. by apply emits_silent. Qed.

Lemma emits_async_def {A} (body : M A) : emits P (async_def body).
Proof. by apply emits_silent. Qed.

Lemma emits_request {A} (answer : list event → event → outcome A) (e : event) :
  P e → emits P (request answer e).
Proof. intros He st. exists [e]. split; [done|]. by constructor. Qed.

Lemma emits_bind {A B} (m : M A) (f : A → M B) :
  emits P m → (∀ a, emits P (f a)) → emits P (m ≫= f).
Proof.
  intros Hm Hf st. destruct (Hm st) as (evs1 & Hlog1 & Hevs1).
  unfold mbind, M_bind. destruct (m st) as [[a|e|] st1]; simpl in *;
    [|by exists evs1..].
  destruct (Hf a st1) as (evs2 & Hlog2 & Hevs2). exists (evs1 ++ evs2).
  split; [by rewrite Hlog2, Hlog1, app_assoc|by apply Forall_app].
Qed.

Lemma emits_try_except {A} (m : M A) (handler : exn → M A) :
  emits P m → (∀ e, emits P (handler e)) → emits P (try_except m handler).
Proof.
  intros Hm Hh st. destruct (Hm st) as (evs1 & Hlog1 & Hevs1).
  unfold try_except. destruct (m st) as [[a|e|] st1]; simpl in *;
    [by exists evs1| |by exists evs1].
  destruct (Hh e st1) as (evs2 & Hlog2 & Hevs2). exists (evs1 ++ evs2).
  split; [by rewrite Hlog2, Hlog1, app_assoc|by apply Forall_app].
Qed.

Lemma emits_for_each {A} (l : list A) (body : A → M ()) :
  (∀ x, emits P (body x)) → emits P (for_each l body).
Proof.
  intros Hbody. induction l as [|x l IH]; simpl; [apply emits_ret|].
  apply emits_bind; [apply Hbody|by intros _].
Qed.

Lemma emits_list_remove (r : loc) (x : string) : emits P (list_remove r x).
Proof.
  apply emits_bind; [apply emits_read|]. intros l.
  destruct (remove_first x l); [apply emits_write|apply emits_raise].
Qed.

Lemma emits_env_str (w : world) (name : string) : emits P (env_str w name).
Proof.
  unfold env_str. destruct (environ w !! name); [apply emits_ret|apply emits_raise].
Qed.

Lemma emits_print (error : option exn) (text : string) :
  P (EvPrint error text) → emits P (print error text).
Proof. apply emits_request. Qed.
End emits_rules.

Create HintDb emits discriminated.
Global Hint Resolve emits_ret emits_lift emits_raise emits_diverge emits_read
  emits_write emits_alloc emits_async_def emits_list_remove emits_env_str
  : emits.

Ltac emits_steps :=
  repeat first
    [ solve [auto with emits]
    | apply emits_request; done
    | apply emits_for_each; intros ?
    | apply emits_bind; [|intros ?] ].

Section market_log.
Variable w : world.

Lemma market_get_offer_ids_quiet fuel campaign_id market_token :
  emits not_price_update (market.get_offer_ids w fuel campaign_id market_token).
Proof.
  unfold market.get_offer_ids. apply emits_bind; [|auto with emits].
  generalize (@nil string) as product_list. generalize ""%string as page.
  induction fuel as [|fuel IH]; intros page product_list; simpl;
    [auto with emits|].
  apply emits_bind; [by apply emits_request|]. intros some_prod.
  destruct (mp_nextPageToken some_prod) as [[|c next]|]; auto with emits.
Qed.

Lemma market_create_stocks_quiet rem r warehouse_id :
  emits not_price_update (market.create_stocks w rem r warehouse_id).
Proof.
  unfold market.create_stocks. apply emits_bind; [by apply emits_request|].
  intros date. apply emits_bind; [|intros stocks; emits_steps].
  generalize (@nil MarketStock.t) as stocks.
  induction rem as [|watch rest IH]; intros stocks; simpl; [auto with emits|].
  apply emits_bind; [auto with emits|]. intros ids.
  destruct (py_in _ ids); [emits_steps|apply IH].
Qed.

Lemma market_main_campaign_quiet fuel rem campaign_id market_token warehouse_id :
  emits not_price_update (market.main_campaign w fuel rem campaign_id market_token warehouse_id).
Proof.
  unfold market.main_campaign, market.upload_prices, market.update_stocks.
  apply emits_bind; [apply market_get_offer_ids_quiet|]. intros offer_ids.
  apply emits_bind; [apply market_create_stocks_quiet|]. intros stocks.
  emits_steps.
Qed.

Lemma market_main_quiet fuel : emits not_price_update (market.main w fuel).
Proof.
  unfold market.main, seller.download_stock. emits_steps.
  apply emits_try_except.
  - apply emits_bind; [apply market_main_campaign_quiet|]. intros _.
    apply market_main_campaign_quiet.
  - intros e. unfold market.main_except.
    destruct e; by apply emits_print.
Qed.
End market_log.

(** C3, what the code does.  [main] of market.py calls the [async def]
    function [upload_prices] as a plain function and drops the coroutine it
    gets: in every run, with any answers from outside and however the run
    ends, no price update is ever sent. *)
Theorem market_main_sends_no_price (w : world) (fuel : nat) (st : state) :
  ∃ evs, log (market.main w fuel st).2 = log st ++ evs
    ∧ Forall (λ e, is_price_update e = false) evs.
Proof. apply market_main_quiet. Qed.

(** A run of [main] of market.py that completes: both campaigns update
    their stocks, no price update goes out; awaiting [upload_prices] instead
    sends one. *)
Example market_main_run :
  let w := world_of ["A"; "B"; "C"] remnants_AB in
  (market.main w 1 state_empty).1 = Ret ()
  ∧ length (filter (λ e, is_stock_update e = true)
              (log (market.main w 1 state_empty).2)) = 2%nat
  ∧ filter (λ e, is_price_update e = true) (log (market.main w 1 state_empty).2) = []
  ∧ filter (λ e, is_price_update e = true)
      (log ((market.upload_prices w 1 remnants_AB "fbs" "token" ≫= await)
              state_empty).2)
    = [EvMarketUpdatePrice
         [MarketPrice.mk "A" (MarketPrice.mk_amount 1000 "RUR");
          MarketPrice.mk "B" (MarketPrice.mk_amount 500 "RUR")] "fbs" "token"].
Proof. by vm_compute. Qed.

(** * Further properties of the two files *)

(** ** [divide] at the edges *)

Lemma range_up_single (fuel : nat) (len n : Z) :
  0 < len ≤ n → range_up (S fuel) 0 len n = [0].
Proof.
  intros Hlen. cbn [range_up].
  destruct (0 <? len) eqn:E1; [|apply Z.ltb_ge in E1; lia]. f_equal.
  destruct fuel as [|fuel]; cbn [range_up]; [done|].
  destruct (0 + n <? len) eqn:E2; [apply Z.ltb_lt in E2; lia|done].
Qed.

(** X1.  An empty list gives no chunk, whatever the step (zero apart, which
    raises); a list that is not empty and no longer than [n] comes back as
    one chunk, the list itself. *)
Theorem divide_small_inputs {A} (lst : list A) (n : Z) :
  (n ≠ 0 → divide (@nil A) n = Ret [])
  ∧ (lst ≠ [] → Z.of_nat (length lst) ≤ n → divide lst n = Ret [lst]).
Proof.
  split.
  - intros Hn. unfold divide, py_range. simpl.
    destruct (n =? 0) eqn:E0; [apply Z.eqb_eq in E0; lia|].
    by destruct (0 <? n).
  - intros Hne Hlen.
    assert (0 < Z.of_nat (length lst)) as Hpos by (destruct lst; [done|simpl; lia]).
    rewrite divide_positive by lia.
    destruct (length lst) as [|fuel] eqn:Hfuel; [lia|].
    rewrite range_up_single by lia. simpl map.
    rewrite py_slice_chunk by lia. change (Z.to_nat 0) with 0%nat.
    rewrite drop_0, take_ge; [done|lia].
Qed.

Lemma divide_small_inputs_witness :
  divide (@nil Z) (-3) = Ret [] ∧ divide [1; 2; 3] 100 = Ret [[1; 2; 3]].
Proof.
  split.
  - apply (divide_small_inputs (@nil Z) (-3)). lia.
  - apply (divide_small_inputs [1; 2; 3] 100); [discriminate|simpl; lia].
Defined.

(** ** [price_conversion] again *)

Lemma before_first_dot_digits (s : string) : digits_only s → before_first_dot s = s.
Proof.
  unfold digits_only. induction s as [|c r IH]; simpl; [done|].
  intros [Hc Hr]%andb_prop. rewrite (is_digit_not_dot c Hc). by rewrite IH.
Qed.

(** X2.  Converting a converted price changes nothing; and a price that is
    no string (a number cell, an empty cell) is refused with
    [AttributeError]. *)
Theorem price_conversion_idempotent (price : pyval) :
  obind (price_conversion price) (λ converted, price_conversion (PyStr converted))
  = price_conversion price
  ∧ ((∀ p, price ≠ PyStr p) → price_conversion price = Raise AttributeError).
Proof.
  split.
  - destruct price as [|z|p|text whole]; [done|done| |done].
    rewrite price_conversion_str. cbn [obind]. rewrite price_conversion_str.
    pose proof (re_sub_digits_only (before_first_dot p)) as Hd.
    by rewrite before_first_dot_digits, re_sub_id.
  - intros Hne. destruct price as [|z|p|text whole]; [done|done| |done].
    by destruct (Hne p).
Qed.

Lemma price_conversion_idempotent_witness :
  price_conversion (PyInt 150) = Raise AttributeError.
Proof. apply (price_conversion_idempotent (PyInt 150)). discriminate. Defined.

(** ** The records of [create_prices] *)

Lemma seller_price_rows_records rem ids :
  (∀ watch, watch ∈ rem → code_of watch ∈ ids →
     ∃ p, py_get watch "Цена" = PyStr p) →
  ∃ prices, seller_price_rows rem ids = Ret prices
    ∧ Forall2 (λ watch price, ∃ p,
         py_get watch "Цена" = PyStr p
         ∧ price = SellerPrice.mk "UNKNOWN" "RUB" (code_of watch) "0"
                     (normalize_spec p))
        (matched_rows rem ids) prices.
Proof.
  unfold matched_rows. induction rem as [|w rest IH]; intros Hstr; simpl.
  - eexists. split; [done|]. constructor.
  - destruct IH as (prices & Hrest & Hall).
    { intros watch Hw. apply Hstr. by right. }
    rewrite filter_cons. destruct (py_in (code_of w) ids) eqn:Hcode.
    + apply py_in_true in Hcode. rewrite decide_True by done.
      destruct (Hstr w) as [p Hp]; [by left|done|].
      rewrite Hp, price_conversion_str, Hrest. simpl.
      eexists. split; [done|]. constructor; [|done].
      exists p. split; [done|]. unfold normalize_spec.
      by rewrite <- re_sub_keep_digits.
    + apply py_in_false in Hcode. rewrite decide_False by done.
      by exists prices.
Qed.

(** X3.  Given an offer-id list and a feed in which the price of every row
    of a known offer is a string, [create_prices] of seller.py returns one
    record for each such row, in feed order, with the normalised price of the
    row; rows of unknown codes give nothing, offers without a row give
    nothing. *)
Theorem seller_create_prices_records
    (rem : list (gmap string pyval)) (r : loc) (st : state) :
  (∀ watch, watch ∈ rem → code_of watch ∈ heap st !!! r →
     ∃ p, py_get watch "Цена" = PyStr p) →
  ∃ prices,
    seller.create_prices rem r st = (Ret prices, st)
    ∧ Forall2 (λ watch price, ∃ p,
         py_get watch "Цена" = PyStr p
         ∧ price = SellerPrice.mk "UNKNOWN" "RUB" (code_of watch) "0"
                     (normalize_spec p))
        (matched_rows rem (heap st !!! r)) prices
    ∧ (∀ id, id ∉ map code_of rem → id ∉ map SellerPrice.offer_id prices).
Proof.
  intros Hstr. rewrite seller_create_prices_rows.
  destruct (seller_price_rows_records rem _ Hstr) as (prices & -> & Hall).
  exists prices. split; [done|]. split; [done|].
  intros id Hid (price & -> & Hprice)%list_elem_of_fmap. apply Hid.
  apply list_elem_of_lookup in Hprice as [k Hk].
  destruct (Forall2_lookup_r _ _ _ _ _ Hall Hk) as (watch & Hw & p & _ & ->).
  simpl. apply list_elem_of_fmap. exists watch. split; [done|].
  apply list_elem_of_lookup_2 in Hw. unfold matched_rows in Hw.
  by apply list_elem_of_filter in Hw as [_ ?].
Qed.

Lemma seller_create_prices_records_witness :
  ∃ prices,
    seller.create_prices remnants_AB 1%positive (state_with ["A"; "C"])
    = (Ret prices, state_with ["A"; "C"])
    ∧ Forall2 (λ watch price, ∃ p,
         py_get watch "Цена" = PyStr p
         ∧ price = SellerPrice.mk "UNKNOWN" "RUB" (code_of watch) "0"
                     (normalize_spec p))
        (matched_rows remnants_AB (heap (state_with ["A"; "C"]) !!! 1%positive))
        prices
    ∧ (∀ id, id ∉ map code_of remnants_AB → id ∉ map SellerPrice.offer_id prices).
Proof.
  apply (seller_create_prices_records remnants_AB 1%positive (state_with ["A"; "C"])).
  intros watch Hw _. unfold remnants_AB in Hw.
  apply elem_of_cons in Hw as [->|Hw]; [by eexists|].
  apply elem_of_cons in Hw as [->|Hw]; [by eexists|].
  by apply elem_of_nil in Hw.
Defined.

(** A price "has digits" when its text before the first ["."] holds at
    least one digit, and no more than [int] accepts. *)
Lemma market_price_rows_records rem ids :
  (∀ watch, watch ∈ rem → code_of watch ∈ ids →
     ∃ p, py_get watch "Цена" = PyStr p ∧ normalize_spec p ≠ ""
          ∧ (String.length (normalize_spec p) ≤ int_max_str_digits)%nat) →
  ∃ prices, market_price_rows rem ids = Ret prices
    ∧ Forall2 (λ watch price, ∃ p,
         py_get watch "Цена" = PyStr p
         ∧ price = MarketPrice.mk (code_of watch)
                     (MarketPrice.mk_amount (decimal_value (normalize_spec p)) "RUR"))
        (matched_rows rem ids) prices.
Proof.
  unfold matched_rows. induction rem as [|w rest IH]; intros Hstr; simpl.
  - eexists. split; [done|]. constructor.
  - destruct IH as (prices & Hrest & Hall).
    { intros watch Hw. apply Hstr. by right. }
    rewrite filter_cons. destruct (py_in (code_of w) ids) eqn:Hcode.
    + apply py_in_true in Hcode. rewrite decide_True by done.
      destruct (Hstr w) as (p & Hp & Hne & Hlen); [by left|done|].
      unfold normalize_spec in *. rewrite <- re_sub_keep_digits in *.
      rewrite Hp, price_conversion_str. simpl.
      rewrite py_int_str_decimal; [|apply re_sub_digits_only|done..].
      simpl. rewrite Hrest. simpl.
      eexists. split; [done|]. constructor; [|done].
      exists p. split; [done|]. unfold normalize_spec.
      by rewrite <- re_sub_keep_digits.
    + apply py_in_false in Hcode. rewrite decide_False by done.
      by exists prices.
Qed.

Lemma decimal_value_nonneg (s : string) : digits_only s → 0 ≤ decimal_value s.
Proof.
  unfold digits_only. induction s as [|c r IH]; simpl; [done|].
  intros [Hc Hr]%andb_prop. pose proof (digit_value_range c Hc).
  specialize (IH Hr). assert (0 < 10 ^ Z.of_nat (String.length r)) by (apply Z.pow_pos_nonneg; lia).
  nia.
Qed.

(** X4.  When the price of every row of a known offer is a string with at
    least one digit before its first ["."] (and no more digits than [int]
    reads), [create_prices] of market.py returns one record for each such
    row, in feed order; its value is the integer the normalised price
    writes, never negative. *)
Theorem market_create_prices_records
    (rem : list (gmap string pyval)) (r : loc) (st : state) :
  (∀ watch, watch ∈ rem → code_of watch ∈ heap st !!! r →
     ∃ p, py_get watch "Цена" = PyStr p ∧ normalize_spec p ≠ ""
          ∧ (String.length (normalize_spec p) ≤ int_max_str_digits)%nat) →
  ∃ prices,
    market.create_prices rem r st = (Ret prices, st)
    ∧ Forall2 (λ watch price, ∃ p,
         py_get watch "Цена" = PyStr p
         ∧ price = MarketPrice.mk (code_of watch)
                     (MarketPrice.mk_amount (decimal_value (normalize_spec p)) "RUR"))
        (matched_rows rem (heap st !!! r)) prices
    ∧ Forall (λ price, 0 ≤ MarketPrice.value (MarketPrice.price price)) prices.
Proof.
  intros Hstr. rewrite market_create_prices_rows.
  destruct (market_price_rows_records rem _ Hstr) as (prices & -> & Hall).
  exists prices. split; [done|]. split; [done|].
  apply Forall_lookup. intros k price Hk.
  destruct (Forall2_lookup_r _ _ _ _ _ Hall Hk) as (watch & Hw & p & _ & ->).
  simpl. apply decimal_value_nonneg. unfold normalize_spec.
  rewrite <- re_sub_keep_digits. apply re_sub_digits_only.
Qed.

Lemma market_create_prices_records_witness :
  ∃ prices,
    market.create_prices remnants_AB 1%positive (state_with ["A"; "C"])
    = (Ret prices, state_with ["A"; "C"])
    ∧ Forall (λ price, 0 ≤ MarketPrice.value (MarketPrice.price price)) prices.
Proof.
  destruct (market_create_prices_records remnants_AB 1%positive (state_with ["A"; "C"]))
    as (prices & Hrun & _ & Hpos).
  - intros watch Hw _. unfold remnants_AB in Hw.
    apply elem_of_cons in Hw as [->|Hw].
    { exists "1000.00 руб.". split; [done|]. split; [done|]. vm_compute. lia. }
    apply elem_of_cons in Hw as [->|Hw].
    { exists "500.00 руб.". split; [done|]. split; [done|]. vm_compute. lia. }
    by apply elem_of_nil in Hw.
  - exists prices. split; [exact Hrun|exact Hpos].
Defined.
(** ** What [create_stocks] does to the heap *)

(** X5.  On a feed [str] can write, however [create_stocks] ends, the only
    list object it changes is the offer-id list, and it holds what the loop
    had taken out when the function ended: for some [n], the matched rows
    among the first [n] rows of the feed carry a quantity the bucketing
    accepts and each of these [n] rows whose code the list held has taken
    the first entry of its code out of it; either [n] is the number of rows
    and records are returned, or row [n] is matched, its quantity is
    refused and no record is returned.  So the list left is a sublist of
    the list found, with the entries in the order they had, and after an
    error the entries taken out so far stay out: nothing is added,
    reordered or put back.  seller.py writes nothing to the log, market.py
    reads the clock once. *)
Theorem create_stocks_only_consumes
    (w : world) (rem : list (gmap string pyval)) (r : loc) (ids : list string)
    (warehouse_id : string) (st : state) :
  heap st !! r = Some ids →
  readable rem ids (length rem) →
  ∃ n left,
    (n ≤ length rem)%nat
    ∧ left = consumed (map code_of (take n rem)) ids
    ∧ (∀ j row, (j < n)%nat → matched_at rem ids j row →
         ∃ stock, stock_of row = Ret stock)
    ∧ ((n = length rem
        ∧ (∃ stocks, (seller.create_stocks rem r st).1 = Ret stocks)
        ∧ (∃ stocks, (market.create_stocks w rem r warehouse_id st).1 = Ret stocks))
       ∨ (∃ row, matched_at rem ids n row
            ∧ (¬ ∃ stock, stock_of row = Ret stock)
            ∧ (¬ ∃ stocks, (seller.create_stocks rem r st).1 = Ret stocks)
            ∧ (¬ ∃ stocks,
                 (market.create_stocks w rem r warehouse_id st).1 = Ret stocks)
            ∧ (∀ e, stock_of row = Raise e →
                 (seller.create_stocks rem r st).1 = Raise e
                 ∧ (market.create_stocks w rem r warehouse_id st).1 = Raise e)))
    ∧ left `sublist_of` ids
    ∧ (∀ code, occurrences code left
         = (occurrences code ids
            - occurrences code (map code_of (take n rem)))%nat)
    ∧ (seller.create_stocks rem r st).2 = set_list st r left
    ∧ (market.create_stocks w rem r warehouse_id st).2
      = set_list (clock_read st) r left
    ∧ (∀ other, other ≠ r →
         heap (seller.create_stocks rem r st).2 !! other = heap st !! other
         ∧ heap (market.create_stocks w rem r warehouse_id st).2 !! other
           = heap st !! other).
Proof.
  intros Hr _.
  rewrite (seller_create_stocks_rows _ _ ids), (market_create_stocks_rows _ _ _ _ ids)
    by done.
  destruct (match_rows_run rem ids) as (n & Hn & Hbefore & Hend & Hsub & Hocc & Hleft).
  exists n, (match_rows rem ids).2.
  split; [done|]. split; [done|]. split; [done|].
  split; [|split; [done|split; [done|split; [|split]]]].
  - destruct Hend as [[-> [matched Hm]]|(row & Hrow & Hbad & Hno & Hraise)].
    + left. split; [done|].
      destruct (match_rows rem ids) as [o left]. simpl in *. subst o.
      split; by eexists.
    + right. exists row. split; [done|]. split; [done|].
      destruct (match_rows rem ids) as [[matched|e|] left]; simpl in *.
      * destruct Hno. by eexists.
      * split; [by intros [? ?]|]. split; [by intros [? ?]|].
        intros e' He'. pose proof (Hraise e' He') as Heq. split; congruence.
      * split; [by intros [? ?]|]. split; [by intros [? ?]|].
        intros e' He'. pose proof (Hraise e' He') as Heq. split; congruence.
  - by destruct (match_rows rem ids) as [[matched|e|] left].
  - by destruct (match_rows rem ids) as [[matched|e|] left].
  - intros other Hother.
    destruct (match_rows rem ids) as [[matched|e|] left]; simpl;
      by rewrite !lookup_insert_ne.
Qed.

Lemma create_stocks_only_consumes_witness :
  let rem := remnants_AB ++ [row (PyStr "C") (PyStr "?") (PyStr "1.00");
                             row (PyStr "B") (PyInt 3) (PyStr "1.00")] in
  let st := state_with ["B"; "A"; "B"; "C"] in
  ∃ n left,
    n = 2%nat ∧ left = ["B"; "C"]
    ∧ left = consumed (map code_of (take n rem)) ["B"; "A"; "B"; "C"]
    ∧ (seller.create_stocks rem 1%positive st).1 = Raise ValueError
    ∧ (seller.create_stocks rem 1%positive st).2 = set_list st 1%positive left
    ∧ (market.create_stocks (world_of [] []) rem 1%positive "warehouse" st).2
      = set_list (clock_read st) 1%positive left.
Proof.
  intros rem st.
  assert (readable rem ["B"; "A"; "B"; "C"] (length rem)) as Hreadable.
  { intros j watch _ Hj. destruct j as [|[|[|[|j]]]]; simpl in Hj; [| | | |done];
      injection Hj as <-; (split; [exact I|intros _; vm_compute; lia || exact I]). }
  destruct (create_stocks_only_consumes (world_of [] []) rem 1%positive
              ["B"; "A"; "B"; "C"] "warehouse" st eq_refl Hreadable)
    as (n & left & Hn & Hleft & Hbefore & Hend & Hsub & Hocc & Hseller & Hmarket & _).
  assert (n = 2%nat) as Hn2.
  { destruct Hend as [[_ [[stocks Hstocks] _]]|(bad & [Hbad _] & Hrefused & _)].
    - vm_compute in Hstocks. discriminate.
    - destruct n as [|[|[|[|n]]]]; simpl in Hbad.
      + injection Hbad as <-. destruct Hrefused. by exists 5.
      + injection Hbad as <-. destruct Hrefused. by exists 100.
      + done.
      + injection Hbad as <-. destruct Hrefused. by exists 3.
      + done. }
  exists n, left. split; [exact Hn2|].
  assert (left = ["B"; "C"]) as Hlist.
  { rewrite Hleft, Hn2. reflexivity. }
  split; [exact Hlist|]. split; [exact Hleft|].
  split; [reflexivity|]. split; [exact Hseller|exact Hmarket].
Defined.

(** ** Paging through the offers *)

Lemma logged_logged st evs1 evs2 : logged (logged st evs1) evs2 = logged st (evs1 ++ evs2).
Proof. unfold logged. simpl. by rewrite app_assoc. Qed.

Lemma seller_get_offer_ids_loop_pages w fuel client_id seller_token last_id acc st
    result st' :
  seller.get_offer_ids_loop w fuel client_id seller_token last_id acc st
  = (Ret result, st') →
  ∃ pages last,
    let cursors := last_id :: map sp_last_id pages in
    st' = logged st (seller_listing_events client_id seller_token cursors)
    ∧ result = acc ++ concat (map sp_items (pages ++ [last]))
    ∧ sp_total last = Z.of_nat (length result)
    ∧ (∀ k page, pages !! k = Some page →
         sp_total page
         ≠ Z.of_nat (length (acc ++ concat (map sp_items (take (S k) pages)))))
    ∧ (∀ k page cursor, (pages ++ [last]) !! k = Some page →
         cursors !! k = Some cursor →
         seller_listing w
           (log st ++ seller_listing_events client_id seller_token (take k cursors))
           (EvSellerGetProductList cursor client_id seller_token)
         = Ret page).
Proof.
  revert last_id acc st result st'.
  induction fuel as [|fuel IH]; intros last_id acc st result st'; [done|].
  simpl. unfold seller.get_offer_ids_loop; fold seller.get_offer_ids_loop.
  unfold seller.get_product_list, request. run.
  destruct (seller_listing w (log st) _) as [page|e|] eqn:Hpage; [|done..].
  fold (logged st [EvSellerGetProductList last_id client_id seller_token]).
  destruct (sp_total page =? _) eqn:Htotal.
  - apply Z.eqb_eq in Htotal. intros [= <- <-]. exists [], page. simpl.
    rewrite app_nil_r. split; [done|]. split; [done|]. split; [done|].
    split; [by intros k p ?|].
    intros [|k] p cursor; simpl; [|by intros ?].
    intros [= <-] [= <-]. by rewrite app_nil_r.
  - apply Z.eqb_neq in Htotal. intros Hrun.
    destruct (IH _ _ _ _ _ Hrun) as (pages & last & -> & -> & Hlast & Hbefore & Hanswers).
    exists (page :: pages), last. cbn zeta in *. split.
    { rewrite logged_logged. reflexivity. }
    split; [simpl; by rewrite <- app_assoc|].
    split; [rewrite Hlast; simpl; by rewrite <- app_assoc|].
    split.
    + intros [|k] p; simpl.
      * intros [= <-]. by rewrite app_nil_r.
      * intros Hk. specialize (Hbefore k p Hk). by rewrite <- app_assoc in Hbefore.
    + intros [|k] p cursor; simpl.
      * intros [= <-] [= <-]. by rewrite app_nil_r.
      * intros Hk Hc. specialize (Hanswers k p cursor Hk Hc).
        simpl in Hanswers. by rewrite <- app_assoc in Hanswers.
Qed.

(** X6.  When [get_offer_ids] of seller.py returns, it has asked for pages
    one after the other, the first with the cursor [""] and each next one
    with the ["last_id"] of the page before; the page it stopped at is the
    first one whose ["total"] equals the number of items gathered so far;
    what it returns is a new list object, holding the offer ids of all the
    pages in the order they came, duplicates included. *)
Theorem seller_get_offer_ids_pages
    (w : world) (fuel : nat) (client_id seller_token : string)
    (st st' : state) (r : loc) :
  seller.get_offer_ids w fuel client_id seller_token st = (Ret r, st') →
  ∃ pages last,
    let cursors := "" :: map sp_last_id pages in
    let offer_ids := concat (map sp_items (pages ++ [last])) in
    heap st !! r = None
    ∧ st' = set_list
              (logged st (seller_listing_events client_id seller_token cursors))
              r offer_ids
    ∧ sp_total last = Z.of_nat (length offer_ids)
    ∧ (∀ k page, pages !! k = Some page →
         sp_total page
         ≠ Z.of_nat (length (concat (map sp_items (take (S k) pages)))))
    ∧ (∀ k page cursor, (pages ++ [last]) !! k = Some page →
         cursors !! k = Some cursor →
         seller_listing w
           (log st ++ seller_listing_events client_id seller_token (take k cursors))
           (EvSellerGetProductList cursor client_id seller_token)
         = Ret page).
Proof.
  unfold seller.get_offer_ids. run.
  destruct (seller.get_offer_ids_loop w fuel client_id seller_token "" [] st)
    as [[result|e|] st1] eqn:Hloop; [|done..].
  apply seller_get_offer_ids_loop_pages in Hloop
    as (pages & last & -> & -> & Hlast & Hbefore & Hanswers).
  unfold alloc. simpl. intros [= <- <-]. exists pages, last. cbn zeta.
  split; [apply not_elem_of_dom, is_fresh|]. done.
Qed.

Lemma seller_get_offer_ids_pages_witness :
  ∃ pages last,
    (seller.get_offer_ids (world_of ["A"; "B"] []) 3 "client" "token" state_empty).2
    = set_list
        (logged state_empty
           (seller_listing_events "client" "token" ("" :: map sp_last_id pages)))
        1%positive (concat (map sp_items (pages ++ [last])))
    ∧ sp_total last = Z.of_nat (length (concat (map sp_items (pages ++ [last])))).
Proof.
  destruct (seller_get_offer_ids_pages (world_of ["A"; "B"] []) 3 "client" "token"
              state_empty
              (seller.get_offer_ids (world_of ["A"; "B"] []) 3 "client" "token"
                 state_empty).2 1%positive)
    as (pages & last & _ & Hst & Hlast & _); [reflexivity|].
  exists pages, last. split; [exact Hst|exact Hlast].
Defined.

Lemma seller_get_offer_ids_loop_skips w items total fuel client_id seller_token
    last_id acc st (j : nat) :
  (∀ history e, ∃ page,
      seller_listing w history e = Ret page
      ∧ sp_items page = items ∧ sp_total page = total) →
  (∀ k : nat, total ≠ Z.of_nat (S k * length items)) →
  length acc = (j * length items)%nat →
  (seller.get_offer_ids_loop w fuel client_id seller_token last_id acc st).1 = Diverge.
Proof.
  intros Hserver Hskip. revert last_id acc st j.
  induction fuel as [|fuel IH]; intros last_id acc st j Hacc; [done|].
  simpl. unfold seller.get_product_list, request. run.
  destruct (Hserver (log st) (EvSellerGetProductList last_id client_id seller_token))
    as (page & -> & Hitems & Htotal).
  rewrite Hitems, Htotal.
  destruct (total =? _) eqn:E.
  - apply Z.eqb_eq in E. destruct (Hskip j). rewrite E, length_app, Hacc.
    f_equal. lia.
  - apply (IH _ _ _ (S j)). rewrite length_app, Hacc. lia.
Qed.

(** X7.  The loop of [get_offer_ids] of seller.py has no bound of its own:
    against a server that answers every request with pages of the same
    items and the same ["total"], it never ends when the total is no
    positive multiple of the page length (the count of gathered items steps
    over it). *)
Theorem seller_get_offer_ids_never_ends
    (w : world) (items : list string) (total : Z)
    (client_id seller_token : string) (st : state) :
  (∀ history e, ∃ page,
      seller_listing w history e = Ret page
      ∧ sp_items page = items ∧ sp_total page = total) →
  (∀ k : nat, total ≠ Z.of_nat (S k * length items)) →
  ∀ fuel, (seller.get_offer_ids w fuel client_id seller_token st).1 = Diverge.
Proof.
  intros Hserver Hskip fuel. unfold seller.get_offer_ids. run.
  pose proof (seller_get_offer_ids_loop_skips w items total fuel client_id
                seller_token "" [] st 0 Hserver Hskip eq_refl) as Hloop.
  by destruct (seller.get_offer_ids_loop w fuel client_id seller_token "" [] st)
    as [[result|e|] st1]; simpl in *.
Qed.

Lemma seller_get_offer_ids_never_ends_witness :
  (seller.get_offer_ids world_two_of_three 50 "client" "token" state_empty).1
  = Diverge.
Proof.
  apply (seller_get_offer_ids_never_ends world_two_of_three ["A"; "B"] 3).
  - intros history e. by eexists.
  - intros k. simpl. lia.
Defined.

Lemma market_get_offer_ids_loop_pages w fuel campaign_id market_token page acc st
    result st' :
  market.get_offer_ids_loop w fuel campaign_id market_token page acc st
  = (Ret result, st') →
  ∃ pages tokens last,
    let cursors := page :: tokens in
    st' = logged st (market_listing_events campaign_id market_token cursors)
    ∧ result = acc ++ concat (map mp_offerMappingEntries (pages ++ [last]))
    ∧ next_page last = None
    ∧ Forall2 (λ p token, next_page p = Some token) pages tokens
    ∧ (∀ k p cursor, (pages ++ [last]) !! k = Some p →
         cursors !! k = Some cursor →
         market_listing w
           (log st ++ market_listing_events campaign_id market_token (take k cursors))
           (EvMarketGetProductList cursor campaign_id market_token)
         = Ret p).
Proof.
  revert page acc st result st'.
  induction fuel as [|fuel IH]; intros page acc st result st'; [done|].
  simpl. unfold market.get_product_list, request. run.
  destruct (market_listing w (log st) _) as [some_prod|e|] eqn:Hpage; [|done..].
  fold (logged st [EvMarketGetProductList page campaign_id market_token]).
  assert (Hlast : next_page some_prod = None →
    (Ret (acc ++ mp_offerMappingEntries some_prod),
     logged st [EvMarketGetProductList page campaign_id market_token])
    = (Ret result, st') →
    ∃ pages tokens last,
      st' = logged st (market_listing_events campaign_id market_token (page :: tokens))
      ∧ result = acc ++ concat (map mp_offerMappingEntries (pages ++ [last]))
      ∧ next_page last = None
      ∧ Forall2 (λ p token, next_page p = Some token) pages tokens
      ∧ (∀ k p cursor, (pages ++ [last]) !! k = Some p →
           (page :: tokens) !! k = Some cursor →
           market_listing w
             (log st ++ market_listing_events campaign_id market_token
                          (take k (page :: tokens)))
             (EvMarketGetProductList cursor campaign_id market_token)
           = Ret p)).
  { intros Hnone [= <- <-]. exists [], [], some_prod. simpl.
    rewrite app_nil_r. split; [done|]. split; [done|]. split; [done|].
    split; [constructor|].
    intros [|k] p cursor; simpl; [|by intros ?].
    intros [= <-] [= <-]. by rewrite app_nil_r. }
  unfold next_page in Hlast.
  destruct (mp_nextPageToken some_prod) as [[|c token]|] eqn:Htoken; [by apply Hlast| |by apply Hlast].
  clear Hlast. intros Hrun.
  destruct (IH _ _ _ _ _ Hrun)
    as (pages & tokens & last & -> & -> & Hlast & Htokens & Hanswers).
  exists (some_prod :: pages), (String c token :: tokens), last. cbn zeta in *.
  split; [rewrite logged_logged; reflexivity|].
  split; [simpl; by rewrite <- app_assoc|]. split; [done|].
  split; [constructor; [by unfold next_page; rewrite Htoken|done]|].
  intros [|k] p cursor; simpl.
  - intros [= <-] [= <-]. by rewrite app_nil_r.
  - intros Hk Hc. specialize (Hanswers k p cursor Hk Hc).
    simpl in Hanswers. by rewrite <- app_assoc in Hanswers.
Qed.

(** X8.  When [get_offer_ids] of market.py returns, it has asked for pages
    one after the other, the first with the token [""] and each next one
    with the ["nextPageToken"] of the page before; it stopped at the first
    page whose token is missing or empty; what it returns is a new list
    object with the ["shopSku"] of all the pages in the order they came. *)
Theorem market_get_offer_ids_pages
    (w : world) (fuel : nat) (campaign_id market_token : string)
    (st st' : state) (r : loc) :
  market.get_offer_ids w fuel campaign_id market_token st = (Ret r, st') →
  ∃ pages tokens last,
    let cursors := "" :: tokens in
    heap st !! r = None
    ∧ st' = set_list
              (logged st (market_listing_events campaign_id market_token cursors))
              r (concat (map mp_offerMappingEntries (pages ++ [last])))
    ∧ next_page last = None
    ∧ Forall2 (λ p token, next_page p = Some token) pages tokens
    ∧ (∀ k p cursor, (pages ++ [last]) !! k = Some p →
         cursors !! k = Some cursor →
         market_listing w
           (log st ++ market_listing_events campaign_id market_token (take k cursors))
           (EvMarketGetProductList cursor campaign_id market_token)
         = Ret p).
Proof.
  unfold market.get_offer_ids. run.
  destruct (market.get_offer_ids_loop w fuel campaign_id market_token "" [] st)
    as [[result|e|] st1] eqn:Hloop; [|done..].
  apply market_get_offer_ids_loop_pages in Hloop
    as (pages & tokens & last & -> & -> & Hlast & Htokens & Hanswers).
  unfold alloc. simpl. intros [= <- <-]. exists pages, tokens, last. cbn zeta.
  split; [apply not_elem_of_dom, is_fresh|]. done.
Qed.

Lemma market_get_offer_ids_pages_witness :
  ∃ pages tokens last,
    (market.get_offer_ids (world_of ["A"; "B"] []) 3 "fbs" "token" state_empty).2
    = set_list
        (logged state_empty (market_listing_events "fbs" "token" ("" :: tokens)))
        1%positive (concat (map mp_offerMappingEntries (pages ++ [last])))
    ∧ next_page last = None.
Proof.
  destruct (market_get_offer_ids_pages (world_of ["A"; "B"] []) 3 "fbs" "token"
              state_empty
              (market.get_offer_ids (world_of ["A"; "B"] []) 3 "fbs" "token"
                 state_empty).2 1%positive)
    as (pages & tokens & last & _ & Hst & Hlast & _); [reflexivity|].
  exists pages, tokens, last. split; [exact Hst|exact Hlast].
Defined.

(** X9.  The loop of [get_offer_ids] of market.py has no bound of its own
    either: against a server whose every page carries a next token that is
    not empty, it never ends. *)
Theorem market_get_offer_ids_never_ends
    (w : world) (campaign_id market_token : string) (st : state) :
  (∀ history e, ∃ page token,
      market_listing w history e = Ret page ∧ next_page page = Some token) →
  ∀ fuel, (market.get_offer_ids w fuel campaign_id market_token st).1 = Diverge.
Proof.
  intros Hserver fuel. unfold market.get_offer_ids. run.
  assert (Hloop : ∀ page acc st,
    (market.get_offer_ids_loop w fuel campaign_id market_token page acc st).1
    = Diverge).
  { induction fuel as [|fuel IH]; intros page acc st0; [done|].
    simpl. unfold market.get_product_list, request. run.
    destruct (Hserver (log st0) (EvMarketGetProductList page campaign_id market_token))
      as (some_prod & token & -> & Hnext).
    unfold next_page in Hnext.
    destruct (mp_nextPageToken some_prod) as [[|c rest]|]; [done| |done].
    apply IH. }
  specialize (Hloop "" [] st).
  by destruct (market.get_offer_ids_loop w fuel campaign_id market_token "" [] st)
    as [[result|e|] st1]; simpl in *.
Qed.

Lemma market_get_offer_ids_never_ends_witness :
  (market.get_offer_ids world_two_of_three 50 "fbs" "token" state_empty).1
  = Diverge.
Proof.
  apply (market_get_offer_ids_never_ends world_two_of_three).
  intros history e. by eexists _, _.
Defined.

(** ** Uploading in batches *)

Lemma for_each_request_accepted {B} (answer : list event → event → outcome ())
    (ev : B → event) (l : list B) (st : state) :
  (∀ history e, answer history e = Ret ()) →
  for_each l (λ x, request answer (ev x)) st = (Ret (), logged st (map ev l)).
Proof.
  intros Hok. revert st. induction l as [|x l IH]; intros st; simpl.
  - unfold logged. destruct st. simpl. by rewrite app_nil_r.
  - unfold request at 1. run. rewrite Hok.
    fold (logged st [ev x]). by rewrite IH, logged_logged.
Qed.

Lemma for_each_request_refused {B} (answer : list event → event → outcome ())
    (ev : B → event) (sent : list B) (failing : B) (rest : list B)
    (e : exn) (st : state) :
  (∀ k x, sent !! k = Some x →
     answer (log st ++ map ev (take k sent)) (ev x) = Ret ()) →
  answer (log st ++ map ev sent) (ev failing) = Raise e →
  for_each (sent ++ failing :: rest) (λ x, request answer (ev x)) st
  = (Raise e, logged st (map ev (sent ++ [failing]))).
Proof.
  revert st. induction sent as [|x sent IH]; intros st Hsent Hfail; simpl.
  - unfold request. run. rewrite app_nil_r in Hfail. by rewrite Hfail.
  - unfold request at 1. run.
    specialize (Hsent 0%nat x eq_refl) as Hx. simpl in Hx.
    rewrite app_nil_r in Hx. rewrite Hx. fold (logged st [ev x]).
    rewrite IH.
    + by rewrite logged_logged.
    + intros k y Hk. specialize (Hsent (S k) y Hk). simpl in *.
      by rewrite <- app_assoc.
    + simpl in *. by rewrite <- app_assoc.
Qed.

Lemma seller_get_offer_ids_one_page w fuel client_id seller_token st page :
  seller_listing w (log st) (EvSellerGetProductList "" client_id seller_token)
  = Ret page →
  sp_total page = Z.of_nat (length (sp_items page)) →
  seller.get_offer_ids w (S fuel) client_id seller_token st
  = (Ret (fresh (dom (heap st))),
     allocated (logged st [EvSellerGetProductList "" client_id seller_token])
       (sp_items page)).
Proof.
  intros Hpage Htotal. unfold seller.get_offer_ids. simpl.
  unfold seller.get_product_list, request. run. rewrite Hpage.
  apply Z.eqb_eq in Htotal. by rewrite Htotal.
Qed.

Lemma market_get_offer_ids_one_page w fuel campaign_id market_token st page :
  market_listing w (log st) (EvMarketGetProductList "" campaign_id market_token)
  = Ret page →
  next_page page = None →
  market.get_offer_ids w (S fuel) campaign_id market_token st
  = (Ret (fresh (dom (heap st))),
     allocated (logged st [EvMarketGetProductList "" campaign_id market_token])
       (mp_offerMappingEntries page)).
Proof.
  intros Hpage Hnext. unfold market.get_offer_ids. simpl.
  unfold market.get_product_list, request. run. rewrite Hpage.
  unfold next_page in Hnext.
  by destruct (mp_nextPageToken page) as [[|c token]|].
Qed.

Lemma allocated_lookup st l : heap (allocated st l) !! fresh (dom (heap st)) = Some l.
Proof. apply set_list_lookup. Qed.

(** The chunks of a list, for a positive size. *)
Lemma divide_ok {B} (records : list B) (n : Z) :
  0 < n →
  ∃ chunks, divide records n = Ret chunks
    ∧ concat chunks = records
    ∧ Z.of_nat (length chunks) = (Z.of_nat (length records) + n - 1) / n.
Proof.
  intros Hn. eexists. split; [by apply divide_positive|].
  split; [by rewrite concat_chunks by lia|].
  eapply divide_length; [done|by apply divide_positive].
Qed.

Lemma bind_ret {A B} (m : M A) (f : A → M B) (st st1 : state) (a : A) :
  m st = (Ret a, st1) → (m ≫= f) st = f a st1.
Proof. intros Hm. unfold mbind, M_bind. by rewrite Hm. Qed.

Lemma bind_raise {A B} (m : M A) (f : A → M B) (st st1 : state) (e : exn) :
  m st = (Raise e, st1) → (m ≫= f) st = (Raise e, st1).
Proof. intros Hm. unfold mbind, M_bind. by rewrite Hm. Qed.

Lemma lift_ret {A} (o : outcome A) (a : A) (st : state) :
  o = Ret a → lift o st = (Ret a, st).
Proof. by intros ->. Qed.

Lemma await_async_def {A} (body : M A) (st : state) :
  (async_def body ≫= await) st = body st.
Proof. reflexivity. Qed.

(** X10.  The body of [upload_stocks] of seller.py, when the offers come in
    one page, every row of a known offer has a quantity the bucketing
    accepts and every update is accepted: it returns the stock records, one
    for each offer, and those with a count other than zero; after the
    listing request it sends the records in [ceil(offers / 100)] stock
    updates, in order, and nothing else. *)
Theorem seller_upload_stocks_batches
    (w : world) (fuel : nat) (rem : list (gmap string pyval))
    (client_id seller_token : string) (st : state) (page : seller_page) :
  seller_listing w (log st) (EvSellerGetProductList "" client_id seller_token)
  = Ret page →
  sp_total page = Z.of_nat (length (sp_items page)) →
  (∀ history e, acknowledge w history e = Ret ()) →
  (∀ watch, watch ∈ rem → code_of watch ∈ sp_items page →
     ∃ stock, stock_of watch = Ret stock) →
  ∃ stocks chunks st',
    (seller.upload_stocks w (S fuel) rem client_id seller_token ≫= await) st
    = (Ret (filter (λ stock, SellerStock.stock stock ≠ 0) stocks, stocks), st')
    ∧ log st'
      = log st ++ EvSellerGetProductList "" client_id seller_token
          :: map (λ chunk, EvSellerUpdateStocks chunk client_id seller_token) chunks
    ∧ concat chunks = stocks
    ∧ map SellerStock.offer_id stocks ≡ₚ sp_items page
    ∧ Z.of_nat (length chunks) = (Z.of_nat (length (sp_items page)) + 99) / 100.
Proof.
  intros Hpage Htotal Hok Hparse.
  destruct (match_rows_total rem (sp_items page) Hparse) as (matched & left & Hrows).
  pose proof (match_rows_perm _ _ _ _ Hrows) as Hperm.
  set (stocks := map (λ m, SellerStock.mk m.1 m.2) matched
                 ++ map (λ offer_id, SellerStock.mk offer_id 0) left).
  assert (Hids : map SellerStock.offer_id stocks ≡ₚ sp_items page).
  { unfold stocks. rewrite map_app, !map_map. simpl. by rewrite map_id. }
  destruct (divide_ok stocks 100) as (chunks & Hdiv & Hconcat & Hcount); [lia|].
  exists stocks, chunks. eexists. split; [|split; [|split; [done|split; [done|]]]].
  - unfold seller.upload_stocks. rewrite await_async_def.
    erewrite bind_ret; [|by apply (seller_get_offer_ids_one_page _ _ _ _ _ page)].
    erewrite bind_ret;
      [|rewrite (seller_create_stocks_rows _ _ (sp_items page))
          by exact (allocated_lookup (logged st _) _);
        rewrite Hrows; reflexivity].
    fold stocks. erewrite bind_ret; [|by apply lift_ret].
    erewrite bind_ret;
      [|by apply (for_each_request_accepted (acknowledge w)
                    (λ chunk, EvSellerUpdateStocks chunk client_id seller_token))].
    reflexivity.
  - simpl. by rewrite <- app_assoc.
  - rewrite Hcount. rewrite <- (Permutation_length Hids), length_map.
    f_equal. lia.
Qed.

Lemma seller_upload_stocks_batches_witness :
  ∃ stocks chunks st',
    (seller.upload_stocks (world_of ["A"; "B"; "C"] remnants_AB) 1 remnants_AB
       "client" "token" ≫= await) state_empty
    = (Ret (filter (λ stock, SellerStock.stock stock ≠ 0) stocks, stocks), st')
    ∧ log st'
      = log state_empty ++ EvSellerGetProductList "" "client" "token"
          :: map (λ chunk, EvSellerUpdateStocks chunk "client" "token") chunks
    ∧ concat chunks = stocks
    ∧ map SellerStock.offer_id stocks ≡ₚ ["A"; "B"; "C"]
    ∧ Z.of_nat (length chunks) = (3 + 99) / 100.
Proof.
  apply (seller_upload_stocks_batches (world_of ["A"; "B"; "C"] remnants_AB) 0
           remnants_AB "client" "token" state_empty
           {| sp_items := ["A"; "B"; "C"]; sp_total := 3; sp_last_id := "" |}).
  - reflexivity.
  - reflexivity.
  - intros history e. reflexivity.
  - intros watch Hw _. unfold remnants_AB in Hw.
    apply elem_of_cons in Hw as [->|Hw]; [by exists 5|].
    apply elem_of_cons in Hw as [->|Hw]; [by exists 100|].
    by apply elem_of_nil in Hw.
Defined.

Lemma market_not_empty_filter (stocks : list MarketStock.t) :
  Forall (λ stock, MarketStock.items stock ≠ []) stocks →
  foldr (λ stock acc,
     obind (py_index (MarketStock.items stock) 0) (λ item,
     obind acc (λ kept,
       Ret (if decide (MarketItem.count item ≠ 0) then stock :: kept else kept))))
    (Ret []) stocks
  = Ret (filter (λ stock, first_count stock ≠ 0) stocks).
Proof.
  induction 1 as [|stock stocks Hitems _ IH]; simpl; [done|].
  rewrite IH, filter_cons. unfold first_count, py_index.
  destruct (MarketStock.items stock) as [|item items]; [done|]. simpl.
  by destruct (decide (MarketItem.count item ≠ 0)).
Qed.

(** X11.  The body of [upload_stocks] of market.py, under the same
    conditions: it returns the stock records, one for each offer, all for
    the given warehouse and stamped with the one clock reading taken after
    the listing, and those whose count is not zero; it sends the records in
    [ceil(offers / 2000)] stock updates, in order. *)
Theorem market_upload_stocks_batches
    (w : world) (fuel : nat) (rem : list (gmap string pyval))
    (campaign_id market_token warehouse_id : string) (st : state)
    (page : market_page) :
  market_listing w (log st) (EvMarketGetProductList "" campaign_id market_token)
  = Ret page →
  next_page page = None →
  (∀ history e, acknowledge w history e = Ret ()) →
  (∀ watch, watch ∈ rem → code_of watch ∈ mp_offerMappingEntries page →
     ∃ stock, stock_of watch = Ret stock) →
  ∃ stocks chunks st',
    (market.upload_stocks w (S fuel) rem campaign_id market_token warehouse_id
       ≫= await) st
    = (Ret (filter (λ stock, first_count stock ≠ 0) stocks, stocks), st')
    ∧ log st'
      = log st ++ EvMarketGetProductList "" campaign_id market_token :: EvUtcNow
          :: map (λ chunk, EvMarketUpdateStocks chunk campaign_id market_token) chunks
    ∧ concat chunks = stocks
    ∧ map MarketStock.sku stocks ≡ₚ mp_offerMappingEntries page
    ∧ Forall (λ stock, ∃ count,
         stock = market.stock_record (MarketStock.sku stock) warehouse_id count
                   (utcnow w (log st ++
                      [EvMarketGetProductList "" campaign_id market_token])))
        stocks
    ∧ Z.of_nat (length chunks)
      = (Z.of_nat (length (mp_offerMappingEntries page)) + 1999) / 2000.
Proof.
  intros Hpage Hnext Hok Hparse.
  destruct (match_rows_total rem _ Hparse) as (matched & left & Hrows).
  pose proof (match_rows_perm _ _ _ _ Hrows) as Hperm.
  set (date := utcnow w (log st ++
                 [EvMarketGetProductList "" campaign_id market_token])).
  set (stocks := map (λ m, market.stock_record m.1 warehouse_id m.2 date) matched
                 ++ map (λ offer_id, market.stock_record offer_id warehouse_id 0 date)
                      left).
  assert (Hids : map MarketStock.sku stocks ≡ₚ mp_offerMappingEntries page).
  { unfold stocks. rewrite map_app, !map_map. simpl. by rewrite map_id. }
  assert (Hshape : Forall (λ stock, ∃ count,
            stock = market.stock_record (MarketStock.sku stock) warehouse_id count date)
            stocks).
  { unfold stocks. apply Forall_app. split; apply Forall_map, Forall_true.
    - intros m. by exists m.2.
    - intros id. by exists 0. }
  destruct (divide_ok stocks 2000) as (chunks & Hdiv & Hconcat & Hcount); [lia|].
  exists stocks, chunks. eexists.
  split; [|split; [|split; [done|split; [done|split; [done|]]]]].
  - unfold market.upload_stocks. rewrite await_async_def.
    erewrite bind_ret; [|by apply (market_get_offer_ids_one_page _ _ _ _ _ page)].
    erewrite bind_ret;
      [|rewrite (market_create_stocks_rows _ _ _ _ (mp_offerMappingEntries page))
          by exact (allocated_lookup (logged st _) _);
        rewrite Hrows; reflexivity].
    fold date stocks. erewrite bind_ret; [|by apply lift_ret].
    erewrite bind_ret;
      [|by apply (for_each_request_accepted (acknowledge w)
                    (λ chunk, EvMarketUpdateStocks chunk campaign_id market_token))].
    erewrite bind_ret; [reflexivity|].
    apply lift_ret, market_not_empty_filter.
    eapply Forall_impl; [exact Hshape|]. by intros stock [count ->].
  - simpl. by rewrite <- !app_assoc.
  - rewrite Hcount. rewrite <- (Permutation_length Hids), length_map.
    f_equal. lia.
Qed.

Lemma market_upload_stocks_batches_witness :
  ∃ stocks chunks st',
    (market.upload_stocks (world_of ["A"; "B"; "C"] remnants_AB) 1 remnants_AB
       "fbs" "token" "warehouse" ≫= await) state_empty
    = (Ret (filter (λ stock, first_count stock ≠ 0) stocks, stocks), st')
    ∧ concat chunks = stocks
    ∧ map MarketStock.sku stocks ≡ₚ ["A"; "B"; "C"]
    ∧ Z.of_nat (length chunks) = (3 + 1999) / 2000.
Proof.
  destruct (market_upload_stocks_batches (world_of ["A"; "B"; "C"] remnants_AB) 0
              remnants_AB "fbs" "token" "warehouse" state_empty
              {| mp_offerMappingEntries := ["A"; "B"; "C"]; mp_nextPageToken := None |})
    as (stocks & chunks & st' & Hrun & _ & Hconcat & Hids & _ & Hcount).
  - reflexivity.
  - reflexivity.
  - intros history e. reflexivity.
  - intros watch Hw _. unfold remnants_AB in Hw.
    apply elem_of_cons in Hw as [->|Hw]; [by exists 5|].
    apply elem_of_cons in Hw as [->|Hw]; [by exists 100|].
    by apply elem_of_nil in Hw.
  - exists stocks, chunks, st'. split; [exact Hrun|]. split; [exact Hconcat|].
    split; [exact Hids|exact Hcount].
Defined.

(** X12.  The body of [upload_prices] of seller.py asks for the offer ids
    itself: when they come in one page, the price of every row of a known
    offer is a string and every update is accepted, it returns one price
    record for each row of a known offer, in feed order, and sends them in
    [ceil(records / 1000)] price updates after the listing request. *)
Theorem seller_upload_prices_batches
    (w : world) (fuel : nat) (rem : list (gmap string pyval))
    (client_id seller_token : string) (st : state) (page : seller_page) :
  seller_listing w (log st) (EvSellerGetProductList "" client_id seller_token)
  = Ret page →
  sp_total page = Z.of_nat (length (sp_items page)) →
  (∀ history e, acknowledge w history e = Ret ()) →
  (∀ watch, watch ∈ rem → code_of watch ∈ sp_items page →
     ∃ p, py_get watch "Цена" = PyStr p) →
  ∃ prices chunks st',
    (seller.upload_prices w (S fuel) rem client_id seller_token ≫= await) st
    = (Ret prices, st')
    ∧ Forall2 (λ watch price, ∃ p,
         py_get watch "Цена" = PyStr p
         ∧ price = SellerPrice.mk "UNKNOWN" "RUB" (code_of watch) "0"
                     (normalize_spec p))
        (matched_rows rem (sp_items page)) prices
    ∧ log st'
      = log st ++ EvSellerGetProductList "" client_id seller_token
          :: map (λ chunk, EvSellerUpdatePrice chunk client_id seller_token) chunks
    ∧ concat chunks = prices
    ∧ Z.of_nat (length chunks) = (Z.of_nat (length prices) + 999) / 1000.
Proof.
  intros Hpage Htotal Hok Hstr.
  destruct (seller_price_rows_records rem _ Hstr) as (prices & Hrows & Hall).
  destruct (divide_ok prices 1000) as (chunks & Hdiv & Hconcat & Hcount); [lia|].
  exists prices, chunks. eexists.
  split; [|split; [done|split; [|split; [done|]]]].
  - unfold seller.upload_prices. rewrite await_async_def.
    erewrite bind_ret; [|by apply (seller_get_offer_ids_one_page _ _ _ _ _ page)].
    erewrite bind_ret;
      [|rewrite seller_create_prices_rows;
        rewrite (read_lookup _ _ _ (allocated_lookup (logged st _) _));
        rewrite Hrows; reflexivity].
    erewrite bind_ret; [|by apply lift_ret].
    erewrite bind_ret;
      [|by apply (for_each_request_accepted (acknowledge w)
                    (λ chunk, EvSellerUpdatePrice chunk client_id seller_token))].
    reflexivity.
  - simpl. by rewrite <- app_assoc.
  - rewrite Hcount. f_equal. lia.
Qed.

Lemma seller_upload_prices_batches_witness :
  ∃ prices chunks st',
    (seller.upload_prices (world_of ["A"; "B"; "C"] remnants_AB) 1 remnants_AB
       "client" "token" ≫= await) state_empty
    = (Ret prices, st')
    ∧ concat chunks = prices
    ∧ Z.of_nat (length chunks) = (Z.of_nat (length prices) + 999) / 1000.
Proof.
  destruct (seller_upload_prices_batches (world_of ["A"; "B"; "C"] remnants_AB) 0
              remnants_AB "client" "token" state_empty
              {| sp_items := ["A"; "B"; "C"]; sp_total := 3; sp_last_id := "" |})
    as (prices & chunks & st' & Hrun & _ & _ & Hconcat & Hcount).
  - reflexivity.
  - reflexivity.
  - intros history e. reflexivity.
  - intros watch Hw _. unfold remnants_AB in Hw.
    apply elem_of_cons in Hw as [->|Hw]; [by eexists|].
    apply elem_of_cons in Hw as [->|Hw]; [by eexists|].
    by apply elem_of_nil in Hw.
  - exists prices, chunks, st'. split; [exact Hrun|]. split; [exact Hconcat|exact Hcount].
Defined.

(** X13.  No batch is sent again and none is skipped over: when the server
    accepts the first batches and refuses the next one with an exception,
    the loop over the batches of stock updates of seller.py ends with that
    exception, the refused request is the last one made, and the batches
    after it are never sent. *)
Theorem seller_stock_batches_stop_at_refusal
    (w : world) (client_id seller_token : string)
    (sent : list (list SellerStock.t)) (failing : list SellerStock.t)
    (rest : list (list SellerStock.t)) (e : exn) (st : state) :
  let ev := λ chunk, EvSellerUpdateStocks chunk client_id seller_token in
  (∀ k chunk, sent !! k = Some chunk →
     acknowledge w (log st ++ map ev (take k sent)) (ev chunk) = Ret ()) →
  acknowledge w (log st ++ map ev sent) (ev failing) = Raise e →
  for_each (sent ++ failing :: rest)
    (λ some_stock, seller.update_stocks w some_stock client_id seller_token) st
  = (Raise e, logged st (map ev (sent ++ [failing]))).
Proof.
  intros ev Hsent Hfail. unfold seller.update_stocks.
  by apply (for_each_request_refused (acknowledge w) ev).
Qed.

Lemma seller_stock_batches_stop_at_refusal_witness :
  for_each ([[SellerStock.mk "A" 5]] ++ [SellerStock.mk "B" 100] :: [[SellerStock.mk "C" 0]])
    (λ some_stock,
       seller.update_stocks (world_refusing_after 1 [] []) some_stock "client" "token")
    state_empty
  = (Raise HTTPError,
     logged state_empty
       (map (λ chunk, EvSellerUpdateStocks chunk "client" "token")
          ([[SellerStock.mk "A" 5]] ++ [[SellerStock.mk "B" 100]]))).
Proof.
  apply (seller_stock_batches_stop_at_refusal (world_refusing_after 1 [] [])
           "client" "token" [[SellerStock.mk "A" 5]] [SellerStock.mk "B" 100]
           [[SellerStock.mk "C" 0]] HTTPError state_empty).
  - intros [|k] chunk; [|done]. intros _. reflexivity.
  - reflexivity.
Defined.

(** ** The drivers *)

Section emits_then_rules.
Context (P Q : event → Prop).

Lemma emits_then_first {A} (m : M A) : emits P m → emits_then P Q m.
Proof.
intros Hm st. destruct (Hm st) as (evs & Hlog & Hevs).
exists evs, []. by rewrite app_nil_r.
Qed.

Lemma emits_then_second {A} (m : M A) : emits Q m → emits_then P Q m.
Proof.
intros Hm st. destruct (Hm st) as (evs & Hlog & Hevs). by exists [], evs.
Qed.

Lemma emits_then_bind_first {A B} (m : M A) (f : A → M B) :
emits P m → (∀ a, emits_then P Q (f a)) → emits_then P Q (m ≫= f).
Proof.
intros Hm Hf st. destruct (Hm st) as (evs & Hlog & Hevs).
unfold mbind, M_bind. destruct (m st) as [[a|e|] st1]; simpl in *;
  [|exists evs, []; by rewrite app_nil_r..].
destruct (Hf a st1) as (evs1 & evs2 & Hlog' & Hevs1 & Hevs2).
exists (evs ++ evs1), evs2.
split; [by rewrite Hlog', Hlog, <- !app_assoc|].
split; [by apply Forall_app|done].
Qed.

Lemma emits_then_bind_second {A B} (m : M A) (f : A → M B) :
emits_then P Q m → (∀ a, emits Q (f a)) → emits_then P Q (m ≫= f).
Proof.
intros Hm Hf st. destruct (Hm st) as (evs1 & evs2 & Hlog & Hevs1 & Hevs2).
unfold mbind, M_bind. destruct (m st) as [[a|e|] st1]; simpl in *;
  [|by exists evs1, evs2..].
destruct (Hf a st1) as (evs & Hlog' & Hevs).
exists evs1, (evs2 ++ evs).
split; [by rewrite Hlog', Hlog, <- !app_assoc|].
split; [done|by apply Forall_app].
Qed.

Lemma emits_then_try_except {A} (m : M A) (handler : exn → M A) :
emits_then P Q m → (∀ e, emits Q (handler e)) →
emits_then P Q (try_except m handler).
Proof.
intros Hm Hh st. destruct (Hm st) as (evs1 & evs2 & Hlog & Hevs1 & Hevs2).
unfold try_except. destruct (m st) as [[a|e|] st1]; simpl in *;
  [by exists evs1, evs2| |by exists evs1, evs2].
destruct (Hh e st1) as (evs & Hlog' & Hevs).
exists evs1, (evs2 ++ evs).
split; [by rewrite Hlog', Hlog, <- !app_assoc|].
split; [done|by apply Forall_app].
Qed.
End emits_then_rules.

Section seller_emits.
Context (w : world) (P : event → Prop) (client_id seller_token : string).

Lemma seller_get_offer_ids_emits fuel :
(∀ last_id, P (EvSellerGetProductList last_id client_id seller_token)) →
emits P (seller.get_offer_ids w fuel client_id seller_token).
Proof.
intros HP. unfold seller.get_offer_ids. apply emits_bind; [|auto with emits].
generalize (@nil string) as product_list. generalize ""%string as last_id.
induction fuel as [|fuel IH]; intros last_id product_list; simpl;
  [auto with emits|].
apply emits_bind; [by apply emits_request|]. intros some_prod.
destruct (sp_total some_prod =? _); auto with emits.
Qed.

Lemma seller_create_stocks_emits rem r : emits P (seller.create_stocks rem r).
Proof.
unfold seller.create_stocks. apply emits_bind; [|intros stocks; emits_steps].
generalize (@nil SellerStock.t) as stocks.
induction rem as [|watch rest IH]; intros stocks; simpl; [auto with emits|].
apply emits_bind; [auto with emits|]. intros ids.
destruct (py_in _ ids); [emits_steps|apply IH].
Qed.

Lemma seller_create_prices_emits rem r : emits P (seller.create_prices rem r).
Proof. apply emits_silent. intros st. by rewrite seller_create_prices_rows. Qed.

End seller_emits.

Lemma seller_main_env w fuel st seller_token client_id :
  environ w !! "SELLER_TOKEN" = Some seller_token →
  environ w !! "CLIENT_ID" = Some client_id →
  seller.main w fuel st
  = try_except (seller.main_body w fuel client_id seller_token)
      seller.main_except st.
Proof. intros H1 H2. unfold seller.main, env_str. by rewrite H1, H2. Qed.

Lemma seller_main_env_missing w fuel st :
  environ w !! "SELLER_TOKEN" = None ∨ environ w !! "CLIENT_ID" = None →
  seller.main w fuel st = (Raise EnvError, st).
Proof.
  unfold seller.main, env_str. intros [H1|H2].
  - by rewrite H1.
  - rewrite H2. by destruct (environ w !! "SELLER_TOKEN").
Qed.

Lemma seller_main_body_emits w P fuel client_id seller_token :
  (∀ last_id, P (EvSellerGetProductList last_id client_id seller_token)) →
  P EvDownloadStock →
  (∀ stocks, P (EvSellerUpdateStocks stocks client_id seller_token)) →
  (∀ prices, P (EvSellerUpdatePrice prices client_id seller_token)) →
  emits P (seller.main_body w fuel client_id seller_token).
Proof.
  intros Hlist Hfeed Hstocks Hprices. unfold seller.main_body.
  apply emits_bind; [by apply seller_get_offer_ids_emits|]. intros offer_ids.
  apply emits_bind; [by apply emits_request|]. intros watch_remnants.
  apply emits_bind; [apply seller_create_stocks_emits|]. intros stocks.
  apply emits_bind; [apply emits_lift|]. intros chunks.
  apply emits_bind; [apply emits_for_each; intros chunk; by apply emits_request|].
  intros _.
  apply emits_bind; [apply seller_create_prices_emits|]. intros prices.
  apply emits_bind; [apply emits_lift|]. intros chunks'.
  apply emits_for_each. intros chunk. by apply emits_request.
Qed.

Lemma seller_main_except_prints e st :
  ∃ error text, seller.main_except e st = (Ret (), logged st [EvPrint error text]).
Proof. destruct e; by eexists _, _. Qed.

(** X14.  [main] of seller.py lets no exception of its work escape: it
    returns (or never ends, when the paging never ends); the only exception
    it can raise is that of a missing environment variable, before any
    request is made.  It prints at most one message, and that message is the
    last thing it does. *)
Theorem seller_main_catches (w : world) (fuel : nat) (st : state) :
  ((seller.main w fuel st).1 = Ret ()
   ∨ (seller.main w fuel st).1 = Diverge
   ∨ (seller.main w fuel st = (Raise EnvError, st)
      ∧ (environ w !! "SELLER_TOKEN" = None ∨ environ w !! "CLIENT_ID" = None)))
  ∧ ∃ evs tail,
      log (seller.main w fuel st).2 = log st ++ evs ++ tail
      ∧ Forall (λ e, is_print e = false) evs
      ∧ (tail = [] ∨ ∃ error text, tail = [EvPrint error text]).
Proof.
  destruct (environ w !! "SELLER_TOKEN") as [seller_token|] eqn:Htoken.
  2:{ rewrite seller_main_env_missing by auto.
      split; [right; right; by auto|]. exists [], []. simpl. rewrite app_nil_r. by auto. }
  destruct (environ w !! "CLIENT_ID") as [client_id|] eqn:Hclient.
  2:{ rewrite seller_main_env_missing by auto.
      split; [right; right; by auto|]. exists [], []. simpl. rewrite app_nil_r. by auto. }
  rewrite (seller_main_env _ _ _ seller_token client_id) by done.
  destruct (seller_main_body_emits w (λ e, is_print e = false) fuel client_id
              seller_token ltac:(done) ltac:(done) ltac:(done) ltac:(done) st)
    as (evs & Hlog & Hevs).
  unfold try_except.
  destruct (seller.main_body w fuel client_id seller_token st) as [[[]|e|] st1];
    simpl in Hlog.
  - split; [by left|]. exists evs, []. rewrite app_nil_r. simpl. by auto.
  - destruct (seller_main_except_prints e st1) as (error & text & ->).
    split; [by left|]. exists evs, [EvPrint error text]. simpl.
    rewrite Hlog, <- app_assoc. split; [done|]. split; [done|]. right. by eexists _, _.
  - split; [right; by left|]. exists evs, []. rewrite app_nil_r. simpl. by auto.
Qed.

(** X15.  In every run of [main] of seller.py, whatever the answers from
    outside, every stock update is sent before every price update: the log
    of the run splits in a part without price updates followed by a part
    without stock updates. *)
Theorem seller_main_stocks_before_prices (w : world) (fuel : nat) (st : state) :
  ∃ evs1 evs2,
    log (seller.main w fuel st).2 = log st ++ evs1 ++ evs2
    ∧ Forall (λ e, is_price_update e = false) evs1
    ∧ Forall (λ e, is_stock_update e = false) evs2.
Proof.
  revert st.
  change (emits_then (λ e, is_price_update e = false)
            (λ e, is_stock_update e = false) (seller.main w fuel)).
  unfold seller.main.
  apply emits_then_bind_first; [apply emits_env_str|]. intros seller_token.
  apply emits_then_bind_first; [apply emits_env_str|]. intros client_id.
  apply emits_then_try_except.
  - unfold seller.main_body.
    apply emits_then_bind_first; [by apply seller_get_offer_ids_emits|].
    intros offer_ids.
    apply emits_then_bind_first; [by apply emits_request|]. intros watch_remnants.
    apply emits_then_bind_first; [apply seller_create_stocks_emits|]. intros stocks.
    apply emits_then_bind_first; [apply emits_lift|]. intros chunks.
    apply emits_then_bind_first;
      [apply emits_for_each; intros chunk; by apply emits_request|].
    intros _. apply emits_then_second.
    apply emits_bind; [apply seller_create_prices_emits|]. intros prices.
    apply emits_bind; [apply emits_lift|]. intros chunks'.
    apply emits_for_each. intros chunk. by apply emits_request.
  - intros e. unfold seller.main_except. destruct e; by apply emits_print.
Qed.

Section market_emits.
Context (w : world) (P : event → Prop) (campaign_id market_token : string).
Hypothesis P_listing :
∀ page, P (EvMarketGetProductList page campaign_id market_token).
Hypothesis P_stocks :
∀ stocks, P (EvMarketUpdateStocks stocks campaign_id market_token).
Hypothesis P_clock : P EvUtcNow.

Lemma market_get_offer_ids_emits fuel :
emits P (market.get_offer_ids w fuel campaign_id market_token).
Proof using P_listing.
unfold market.get_offer_ids. apply emits_bind; [|auto with emits].
generalize (@nil string) as product_list. generalize ""%string as page.
induction fuel as [|fuel IH]; intros page product_list; simpl;
  [auto with emits|].
apply emits_bind; [by apply emits_request|]. intros some_prod.
destruct (mp_nextPageToken some_prod) as [[|c next]|]; auto with emits.
Qed.

Lemma market_create_stocks_emits rem r warehouse_id :
emits P (market.create_stocks w rem r warehouse_id).
Proof using P_clock.
unfold market.create_stocks. apply emits_bind; [by apply emits_request|].
intros date. apply emits_bind; [|intros stocks; emits_steps].
generalize (@nil MarketStock.t) as stocks.
induction rem as [|watch rest IH]; intros stocks; simpl; [auto with emits|].
apply emits_bind; [auto with emits|]. intros ids.
destruct (py_in _ ids); [emits_steps|apply IH].
Qed.

Lemma market_main_campaign_emits fuel rem warehouse_id :
emits P (market.main_campaign w fuel rem campaign_id market_token warehouse_id).
Proof using P_listing P_stocks P_clock.
unfold market.main_campaign, market.upload_prices.
apply emits_bind; [apply market_get_offer_ids_emits|]. intros offer_ids.
apply emits_bind; [apply market_create_stocks_emits|]. intros stocks.
apply emits_bind; [apply emits_lift|]. intros chunks.
apply emits_bind; [apply emits_for_each; intros chunk; by apply emits_request|].
intros _. apply emits_bind; [apply emits_async_def|]. intros _. apply emits_ret.
Qed.
End market_emits.

Lemma market_main_env w fuel st market_token fbs dbs warehouse_fbs warehouse_dbs :
  environ w !! "MARKET_TOKEN" = Some market_token →
  environ w !! "FBS_ID" = Some fbs →
  environ w !! "DBS_ID" = Some dbs →
  environ w !! "WAREHOUSE_FBS_ID" = Some warehouse_fbs →
  environ w !! "WAREHOUSE_DBS_ID" = Some warehouse_dbs →
  market.main w fuel st
  = (watch_remnants ← seller.download_stock w;
     try_except
       (market.main_campaign w fuel watch_remnants fbs market_token warehouse_fbs;;
        market.main_campaign w fuel watch_remnants dbs market_token warehouse_dbs)
       market.main_except) st.
Proof.
  intros H1 H2 H3 H4 H5. unfold market.main, env_str.
  by rewrite H1, H2, H3, H4, H5.
Qed.

Lemma market_main_except_prints e st :
  ∃ error text, market.main_except e st = (Ret (), logged st [EvPrint error text]).
Proof. destruct e; by eexists _, _. Qed.

Lemma download_stock_run w st :
  seller.download_stock w st = (feed w (log st), logged st [EvDownloadStock]).
Proof. reflexivity. Qed.

(** X16.  [main] of market.py downloads the feed outside its [try]: with
    the five environment variables set, an exception of the download leaves
    [main] uncaught, nothing is printed and no marketplace request is made;
    once the feed is there, no exception escapes any more. *)
Theorem market_main_download_outside_try
    (w : world) (fuel : nat) (st : state)
    (market_token fbs dbs warehouse_fbs warehouse_dbs : string) :
  environ w !! "MARKET_TOKEN" = Some market_token →
  environ w !! "FBS_ID" = Some fbs →
  environ w !! "DBS_ID" = Some dbs →
  environ w !! "WAREHOUSE_FBS_ID" = Some warehouse_fbs →
  environ w !! "WAREHOUSE_DBS_ID" = Some warehouse_dbs →
  (∀ e, feed w (log st) = Raise e →
     market.main w fuel st = (Raise e, logged st [EvDownloadStock]))
  ∧ (∀ rem, feed w (log st) = Ret rem →
       (market.main w fuel st).1 = Ret () ∨ (market.main w fuel st).1 = Diverge).
Proof.
  intros H1 H2 H3 H4 H5.
  rewrite (market_main_env _ _ _ _ _ _ _ _ H1 H2 H3 H4 H5). split.
  - intros e He. apply bind_raise. by rewrite download_stock_run, He.
  - intros rem Hrem. erewrite bind_ret; [|by rewrite download_stock_run, Hrem].
    unfold try_except.
    destruct ((market.main_campaign w fuel rem fbs market_token warehouse_fbs;;
               market.main_campaign w fuel rem dbs market_token warehouse_dbs)
                (logged st [EvDownloadStock])) as [[[]|e|] st1]; [by left| |by right].
    destruct (market_main_except_prints e st1) as (error & text & ->). by left.
Qed.

Lemma market_main_download_outside_try_witness :
  market.main (world_without_feed ["A"]) 1 state_empty
  = (Raise ConnectionError, logged state_empty [EvDownloadStock]).
Proof.
  apply (market_main_download_outside_try (world_without_feed ["A"]) 1 state_empty
           "token" "fbs" "dbs" "warehouse-fbs" "warehouse-dbs");
    reflexivity.
Defined.

(** X17.  The two campaigns of [main] of market.py share one [try]: when
    the work for the first campaign raises, [main] prints one message and
    returns, and no request for the second campaign is ever made. *)
Theorem market_main_second_campaign_skipped
    (w : world) (fuel : nat) (st : state) (rem : list (gmap string pyval))
    (market_token fbs dbs warehouse_fbs warehouse_dbs : string) (e : exn) :
  environ w !! "MARKET_TOKEN" = Some market_token →
  environ w !! "FBS_ID" = Some fbs →
  environ w !! "DBS_ID" = Some dbs →
  environ w !! "WAREHOUSE_FBS_ID" = Some warehouse_fbs →
  environ w !! "WAREHOUSE_DBS_ID" = Some warehouse_dbs →
  fbs ≠ dbs →
  feed w (log st) = Ret rem →
  (market.main_campaign w fuel rem fbs market_token warehouse_fbs
     (logged st [EvDownloadStock])).1 = Raise e →
  (market.main w fuel st).1 = Ret ()
  ∧ ∃ evs error text,
      log (market.main w fuel st).2
      = log st ++ EvDownloadStock :: evs ++ [EvPrint error text]
      ∧ Forall (λ ev, event_campaign ev ≠ Some dbs) evs.
Proof.
  intros H1 H2 H3 H4 H5 Hne Hrem Hfbs.
  rewrite (market_main_env _ _ _ _ _ _ _ _ H1 H2 H3 H4 H5).
  erewrite bind_ret; [|by rewrite download_stock_run, Hrem].
  destruct (market_main_campaign_emits w (λ ev, event_campaign ev ≠ Some dbs)
              fbs market_token) with (fuel := fuel) (rem := rem)
              (warehouse_id := warehouse_fbs) (st := logged st [EvDownloadStock])
    as (evs & Hlog & Hevs); [by intros; simpl; congruence..|done|].
  destruct (market.main_campaign w fuel rem fbs market_token warehouse_fbs
              (logged st [EvDownloadStock])) as [[[]|e'|] st1] eqn:Hrun;
    simpl in Hfbs; [done| |done].
  unfold try_except.
  rewrite (bind_raise _ _ _ _ _ Hrun).
  destruct (market_main_except_prints e' st1) as (error & text & ->).
  split; [done|]. exists evs, error, text. split; [|done].
  simpl in *. rewrite Hlog, <- !app_assoc. done.
Qed.

(** X18.  In every run of [main] of market.py with two different campaign
    ids, every request for the first campaign comes before every request for
    the second. *)
Theorem market_main_campaigns_in_turn
    (w : world) (fuel : nat) (st : state)
    (market_token fbs dbs warehouse_fbs warehouse_dbs : string) :
  environ w !! "MARKET_TOKEN" = Some market_token →
  environ w !! "FBS_ID" = Some fbs →
  environ w !! "DBS_ID" = Some dbs →
  environ w !! "WAREHOUSE_FBS_ID" = Some warehouse_fbs →
  environ w !! "WAREHOUSE_DBS_ID" = Some warehouse_dbs →
  fbs ≠ dbs →
  ∃ evs1 evs2,
    log (market.main w fuel st).2 = log st ++ evs1 ++ evs2
    ∧ Forall (λ ev, event_campaign ev ≠ Some dbs) evs1
    ∧ Forall (λ ev, event_campaign ev ≠ Some fbs) evs2.
Proof.
  intros H1 H2 H3 H4 H5 Hne.
  rewrite (market_main_env _ _ _ _ _ _ _ _ H1 H2 H3 H4 H5). revert st.
  change (emits_then (λ ev, event_campaign ev ≠ Some dbs)
            (λ ev, event_campaign ev ≠ Some fbs)
            (watch_remnants ← seller.download_stock w;
             try_except
               (market.main_campaign w fuel watch_remnants fbs market_token
                  warehouse_fbs;;
                market.main_campaign w fuel watch_remnants dbs market_token
                  warehouse_dbs)
               market.main_except)).
  apply emits_then_bind_first; [by apply emits_request|]. intros watch_remnants.
  apply emits_then_try_except.
  - apply emits_then_bind_first.
    + apply market_main_campaign_emits; intros; simpl; congruence.
    + intros _. apply emits_then_second.
      apply market_main_campaign_emits; intros; simpl; congruence.
  - intros e. unfold market.main_except. destruct e; by apply emits_print.
Qed.

Lemma market_main_second_campaign_skipped_witness :
  let w := world_refusing_after 3 ["A"] remnants_AB in
  (market.main w 1 state_empty).1 = Ret ()
  ∧ ∃ evs error text,
      log (market.main w 1 state_empty).2
      = log state_empty ++ EvDownloadStock :: evs ++ [EvPrint error text]
      ∧ Forall (λ ev, event_campaign ev ≠ Some "dbs") evs.
Proof.
  intros w.
  apply (market_main_second_campaign_skipped w 1 state_empty remnants_AB
           "token" "fbs" "dbs" "warehouse-fbs" "warehouse-dbs" HTTPError);
    [reflexivity..|discriminate|reflexivity|reflexivity].
Defined.

Lemma market_main_campaigns_in_turn_witness :
  let w := world_of ["A"; "B"; "C"] remnants_AB in
  ∃ evs1 evs2,
    log (market.main w 1 state_empty).2 = log state_empty ++ evs1 ++ evs2
    ∧ Forall (λ ev, event_campaign ev ≠ Some "dbs") evs1
    ∧ Forall (λ ev, event_campaign ev ≠ Some "fbs") evs2.
Proof.
  intros w.
  apply (market_main_campaigns_in_turn w 1 state_empty
           "token" "fbs" "dbs" "warehouse-fbs" "warehouse-dbs");
    [reflexivity..|discriminate].
Defined.

(** ** A quantity read as a number or as text *)

(** [int(str(z)) = z], for an integer whose writing [int] accepts. *)
Lemma py_int_str_pretty (z : Z) :
  (String.length (pretty z) ≤ int_max_str_digits)%nat →
  py_int_str (pretty z) = Ret z.
Proof.
  destruct z as [|p|p].
  - intros _. reflexivity.
  - intros Hlen. destruct (pretty_pos_decimal p) as (Hd & Hv & Hne).
    by rewrite py_int_str_decimal, Hv.
  - destruct (pretty_pos_decimal p) as (Hd & Hv & Hne).
    change (pretty (Z.neg p)) with (String "-" (pretty (Z.pos p))).
    intros Hlen. simpl in Hlen. unfold py_int_str.
    rewrite transform_plain_ascii
      by (unfold plain_ascii; simpl; by apply digits_plain_ascii).
    unfold py_int_ascii. simpl lstrip.
    assert (rstrip (String "-" (pretty (Z.pos p))) = String "-" (pretty (Z.pos p)))
      as ->.
    { simpl. rewrite rstrip_digits by done.
      by destruct (pretty (Z.pos p)). }
    simpl. unfold int_unsigned. rewrite int_digits_decimal by auto.
    simpl Nat.add.
    assert ((String.length (pretty (Z.pos p)) <=? int_max_str_digits)%nat = true)
      as -> by (apply Nat.leb_le; lia).
    simpl. f_equal. lia.
Qed.

(** X19.  The bucketing does not depend on how the spreadsheet reader
    hands out a whole number: the cell holding the integer [z] and the cell
    holding its decimal writing get the same count ([int(str(z)) = z]): 0
    for 1, and [z] itself otherwise. *)
Theorem stock_of_number_or_text (watch_number watch_text : gmap string pyval) (z : Z) :
  py_get watch_number "Количество" = PyInt z →
  py_get watch_text "Количество" = PyStr (pretty z) →
  (String.length (pretty z) ≤ int_max_str_digits)%nat →
  stock_of watch_number = stock_of watch_text
  ∧ stock_of watch_number = Ret (if decide (z = 1) then 0 else z).
Proof.
  intros Hnumber Htext Hlen. unfold stock_of. rewrite Hnumber, Htext. simpl.
  assert (pretty z ≠ ">10") as Hsentinel.
  { destruct z as [|p|p]; [done| |done].
    destruct (pretty_pos_decimal p) as (Hd & _ & _). intros Heq.
    by rewrite Heq in Hd. }
  rewrite !decide_False by done.
  destruct (decide (z = 1)) as [->|Hz].
  - done.
  - assert (pretty z ≠ "1") as Hone.
    { change "1"%string with (pretty 1). by intros ?%(inj pretty). }
    rewrite !decide_False by done. by rewrite py_int_str_pretty.
Qed.

Lemma stock_of_number_or_text_witness :
  stock_of {[ "Количество" := PyInt (-12) ]} = stock_of {[ "Количество" := PyStr "-12" ]}
  ∧ stock_of {[ "Количество" := PyInt (-12) ]} = Ret (-12).
Proof.
  apply (stock_of_number_or_text {[ "Количество" := PyInt (-12) ]}
           {[ "Количество" := PyStr "-12" ]} (-12));
    [reflexivity|reflexivity|vm_compute; lia].
Defined.

(** X20.  The body of [upload_prices] of market.py, which [main] never
    awaits: when the offers come in one page, the price of every row of a
    known offer is a string with a digit before its first ["."] and every
    update is accepted, it returns one price record for each row of a known
    offer, in feed order, and sends them in [ceil(records / 500)] price
    updates after the listing request. *)
Theorem market_upload_prices_batches
    (w : world) (fuel : nat) (rem : list (gmap string pyval))
    (campaign_id market_token : string) (st : state) (page : market_page) :
  market_listing w (log st) (EvMarketGetProductList "" campaign_id market_token)
  = Ret page →
  next_page page = None →
  (∀ history e, acknowledge w history e = Ret ()) →
  (∀ watch, watch ∈ rem → code_of watch ∈ mp_offerMappingEntries page →
     ∃ p, py_get watch "Цена" = PyStr p ∧ normalize_spec p ≠ ""
          ∧ (String.length (normalize_spec p) ≤ int_max_str_digits)%nat) →
  ∃ prices chunks st',
    (market.upload_prices w (S fuel) rem campaign_id market_token ≫= await) st
    = (Ret prices, st')
    ∧ Forall2 (λ watch price, ∃ p,
         py_get watch "Цена" = PyStr p
         ∧ price = MarketPrice.mk (code_of watch)
                     (MarketPrice.mk_amount (decimal_value (normalize_spec p)) "RUR"))
        (matched_rows rem (mp_offerMappingEntries page)) prices
    ∧ log st'
      = log st ++ EvMarketGetProductList "" campaign_id market_token
          :: map (λ chunk, EvMarketUpdatePrice chunk campaign_id market_token) chunks
    ∧ concat chunks = prices
    ∧ Z.of_nat (length chunks) = (Z.of_nat (length prices) + 499) / 500.
Proof.
  intros Hpage Hnext Hok Hstr.
  destruct (market_price_rows_records rem _ Hstr) as (prices & Hrows & Hall).
  destruct (divide_ok prices 500) as (chunks & Hdiv & Hconcat & Hcount); [lia|].
  exists prices, chunks. eexists.
  split; [|split; [done|split; [|split; [done|]]]].
  - unfold market.upload_prices. rewrite await_async_def.
    erewrite bind_ret; [|by apply (market_get_offer_ids_one_page _ _ _ _ _ page)].
    erewrite bind_ret;
      [|rewrite market_create_prices_rows;
        rewrite (read_lookup _ _ _ (allocated_lookup (logged st _) _));
        rewrite Hrows; reflexivity].
    erewrite bind_ret; [|by apply lift_ret].
    erewrite bind_ret;
      [|by apply (for_each_request_accepted (acknowledge w)
                    (λ chunk, EvMarketUpdatePrice chunk campaign_id market_token))].
    reflexivity.
  - simpl. by rewrite <- app_assoc.
  - rewrite Hcount. f_equal. lia.
Qed.

Lemma market_upload_prices_batches_witness :
  ∃ prices chunks st',
    (market.upload_prices (world_of ["A"; "B"; "C"] remnants_AB) 1 remnants_AB
       "fbs" "token" ≫= await) state_empty
    = (Ret prices, st')
    ∧ concat chunks = prices
    ∧ Z.of_nat (length chunks) = (Z.of_nat (length prices) + 499) / 500.
Proof.
  destruct (market_upload_prices_batches (world_of ["A"; "B"; "C"] remnants_AB) 0
              remnants_AB "fbs" "token" state_empty
              {| mp_offerMappingEntries := ["A"; "B"; "C"]; mp_nextPageToken := None |})
    as (prices & chunks & st' & Hrun & _ & _ & Hconcat & Hcount).
  - reflexivity.
  - reflexivity.
  - intros history e. reflexivity.
  - intros watch Hw _. unfold remnants_AB in Hw.
    apply elem_of_cons in Hw as [->|Hw].
    { exists "1000.00 руб.". split; [done|]. split; [done|]. vm_compute. lia. }
    apply elem_of_cons in Hw as [->|Hw].
    { exists "500.00 руб.". split; [done|]. split; [done|]. vm_compute. lia. }
    by apply elem_of_nil in Hw.
  - exists prices, chunks, st'. split; [exact Hrun|]. split; [exact Hconcat|exact Hcount].
Defined.
